(** * Benthos: generated-message input, SFTP and Azure Blob Storage writers,
      DynamoDB PartiQL writer

    A shallow embedding of the parts of the repository that the transaction
    pipeline specification talks about, followed by the properties proved
    about them.

    - [Input]      : lib/input/bloblang.go      (the [Bloblang] reader)
    - [SFTPWriter] : lib/output/writer, [SFTP.initSFTPConnection]
    - [AzureBlobStorageWriter] : lib/output/writer, the Azure Blob Storage
                     writer
    - [DynamoDB]   : the PartiQL write path exercised by
                     lib/output/writer/dynamodb_partiql_test.go *)

From Stdlib Require Import ZArith List Lia Bool.
From stdpp Require Import gmap strings list pretty.
Import ListNotations.

Local Open Scope string_scope.

(** ** Go runtime vocabulary shared by the components *)

(** A Go call either returns or panics. *)
Inductive Res (A : Type) : Type :=
| Ret (a : A)
| Panic (msg : string).
Arguments Ret {A} a.
Arguments Panic {A} msg.

(** [int32(z)]: two's complement truncation of an integer to 32 bits. *)
Definition int32_wrap (z : Z) : Z :=
  ((z + 2147483648) mod 4294967296 - 2147483648)%Z.

(** [time.Duration]: signed 64-bit count of nanoseconds. *)
Definition Duration := Z.
Definition Second : Duration := 1000000000%Z.
Definition maxDuration : Duration := 9223372036854775807%Z.
Definition minDuration : Duration := (-9223372036854775808)%Z.

(** [strings.Contains(s, substr)]. *)
Fixpoint Contains (s substr : string) : bool :=
  String.prefix substr s
  || match s with
     | EmptyString => false
     | String _ rest => Contains rest substr
     end.

(** ** lib/input/bloblang.go *)
Module Input.

(** [types.ErrTypeClosed] and [types.ErrTimeout] are the two sentinel errors
    of lib/types; every other error is carried by its message. *)
Inductive Err : Type :=
| ErrTypeClosed
| ErrTimeout
| ErrOther (msg : string).

(** [types.Part] is a payload, [types.Message] an ordered batch of parts. *)
Definition Part := string.
Definition Message := list Part.

Definition message_New (parts : list Part) : Message := parts.
Definition Append (msg : Message) (p : Part) : Message := (msg ++ [p])%list.

(** [types.Response]: the outcome a downstream stage resolves a batch with;
    [None] is success. *)
Definition Response := option Err.

(** [*time.Location] is identified by its zone name. *)
Definition Location := string.

(** [time.Time]: an instant (nanoseconds) presented in a location. *)
Record Time : Type := mkTime { instant : Z; zone : Location }.

(** [t.In(loc)] keeps the instant and changes the presentation. *)
Definition In_ (t : Time) (loc : Location) : Time :=
  {| instant := instant t; zone := loc |}.

(** [t.Sub(u)]: the difference of the instants, saturated to a Duration. *)
Definition Sub (t u : Time) : Duration :=
  let d := (instant t - instant u)%Z in
  if (maxDuration <? d)%Z then maxDuration
  else if (d <? minDuration)%Z then minDuration
  else d.

(** [cron.Schedule] is an interface with the single method [Next]. *)
Record Schedule : Type := mkSchedule { Next : Time -> Time }.

(** [*time.Ticker]: the period it fires with and whether it was stopped. *)
Record Ticker : Type := mkTicker { period : Duration; stopped : bool }.

(** [time.NewTicker(d)] panics on a non-positive period. *)
Definition NewTicker (d : Duration) : Res Ticker :=
  if (d <=? 0)%Z then Panic "non-positive interval for NewTicker"
  else Ret {| period := d; stopped := false |}.

(** [t.Reset(d)] stops the ticker and re-arms it with period [d]; it panics
    on a non-positive period. *)
Definition Reset (t : Ticker) (d : Duration) : Res Ticker :=
  if (d <=? 0)%Z then Panic "non-positive interval for Ticker.Reset"
  else Ret {| period := d; stopped := false |}.

Definition Stop (t : Ticker) : Ticker :=
  {| period := period t; stopped := true |}.

(** [*mapping.Executor]: the compiled mapping, kept by its source text. What
    [MapPart] returns on a given read is an input of that read (mappings
    may draw random numbers, identifiers and counters). *)
Record Executor : Type := mkExecutor { mapping_source : string }.

Record BloblangConfig : Type := mkBloblangConfig {
  Mapping : string;
  Interval : string;
  CronExpression : string;
  Count : Z
}.

Definition NewBloblangConfig : BloblangConfig :=
  {| Mapping := ""; Interval := "1s"; CronExpression := ""; Count := 0 |}.

Record Bloblang : Type := mkBloblang {
  remaining : Z;
  firstIsFree : bool;
  exec : Executor;
  timer : option Ticker;
  schedule : option Schedule;
  location : option Location
}.

Definition with_remaining (b : Bloblang) (r : Z) : Bloblang :=
  {| remaining := r; firstIsFree := firstIsFree b; exec := exec b;
     timer := timer b; schedule := schedule b; location := location b |}.

Definition with_firstIsFree (b : Bloblang) (f : bool) : Bloblang :=
  {| remaining := remaining b; firstIsFree := f; exec := exec b;
     timer := timer b; schedule := schedule b; location := location b |}.

Definition with_timer (b : Bloblang) (t : option Ticker) : Bloblang :=
  {| remaining := remaining b; firstIsFree := firstIsFree b; exec := exec b;
     timer := t; schedule := schedule b; location := location b |}.

(** The library calls made by the constructor: [time.ParseDuration],
    [time.LoadLocation], the cron parser and [bloblang.NewMapping]. *)
Record Externals : Type := mkExternals {
  ParseDuration : string -> Err + Duration;
  LoadLocation : string -> Err + Location;
  cronParse : string -> Err + Schedule;
  NewMapping : string -> Err + Executor
}.

Definition err_text (e : Err) : string :=
  match e with
  | ErrTypeClosed => "type was closed"
  | ErrTimeout => "action timed out"
  | ErrOther m => m
  end.

(** [getDurationTillNextSchedule]; [now] is the reading of [time.Now()]. *)
Definition getDurationTillNextSchedule
    (sched : Schedule) (loc : Location) (now : Time) : Duration :=
  let now := In_ now loc in
  Sub (Next sched now) now.

(** [strings.Index] for a one-byte needle: [-1] when absent. *)
Fixpoint index_byte (c : Ascii.ascii) (s : string) : Z :=
  match s with
  | EmptyString => (-1)%Z
  | String a rest =>
      if Ascii.eqb a c then 0%Z
      else let i := index_byte c rest in
           if (i <? 0)%Z then (-1)%Z else (i + 1)%Z
  end.

Definition HasPrefix (s p : string) : bool := String.prefix p s.

(** [s[lo:hi]]: panics unless [0 <= lo <= hi <= len(s)]. *)
Definition slice (s : string) (lo hi : Z) : Res string :=
  if ((0 <=? lo) && (lo <=? hi) && (hi <=? Z.of_nat (String.length s)))%Z
  then Ret (String.substring (Z.to_nat lo) (Z.to_nat (hi - lo)) s)
  else Panic "slice bounds out of range".

Definition parseCronExpression (ext : Externals) (cronExpression : string)
  : Res (Err + (Schedule * Location)) :=
  let cronExpression :=
    if negb (HasPrefix cronExpression "TZ=")
    then "TZ=UTC " ++ cronExpression
    else cronExpression in
  let end_ := index_byte (Ascii.ascii_of_nat 32) cronExpression in
  let eq := index_byte (Ascii.ascii_of_nat 61) cronExpression in
  match slice cronExpression (eq + 1) end_ with
  | Panic m => Panic m
  | Ret tz =>
      match LoadLocation ext tz with
      | inl e => Ret (inl e)
      | inr loc =>
          match cronParse ext cronExpression with
          | inl e => Ret (inl e)
          | inr cronSchedule => Ret (inr (cronSchedule, loc))
          end
      end
  end.

(** [newBloblang]; [now] is the clock reading used when a cron schedule
    arms the first ticker. *)
Definition newBloblang (ext : Externals) (conf : BloblangConfig) (now : Time)
  : Res (Err + Bloblang) :=
  if (0 <? String.length (Interval conf))%nat
     && (0 <? String.length (CronExpression conf))%nat
  then Ret (inl (ErrOther "only one of interval or cron_expression is allowed"))
  else
    let cron_part : Res (Err + (option Ticker * option Schedule * option Location)) :=
      if (0 <? String.length (CronExpression conf))%nat then
        match parseCronExpression ext (CronExpression conf) with
        | Panic m => Panic m
        | Ret (inl e) =>
            Ret (inl (ErrOther ("failed to parse cron_expression: " ++ err_text e)))
        | Ret (inr (sched, loc)) =>
            match NewTicker (getDurationTillNextSchedule sched loc now) with
            | Panic m => Panic m
            | Ret t => Ret (inr (Some t, Some sched, Some loc))
            end
        end
      else Ret (inr (None, None, None)) in
    match cron_part with
    | Panic m => Panic m
    | Ret (inl e) => Ret (inl e)
    | Ret (inr (timer0, sched, loc)) =>
        let interval_part : Res (Err + option Ticker) :=
          if (0 <? String.length (Interval conf))%nat then
            match ParseDuration ext (Interval conf) with
            | inl e => Ret (inl (ErrOther ("failed to parse interval: " ++ err_text e)))
            | inr duration =>
                match NewTicker duration with
                | Panic m => Panic m
                | Ret t => Ret (inr (Some t))
                end
            end
          else Ret (inr timer0) in
        match interval_part with
        | Panic m => Panic m
        | Ret (inl e) => Ret (inl e)
        | Ret (inr timer1) =>
            match NewMapping ext (Mapping conf) with
            | inl e => Ret (inl (ErrOther ("failed to parse mapping: " ++ err_text e)))
            | inr exec0 =>
                let remaining0 := int32_wrap (Count conf) in
                let remaining0 := if (remaining0 <=? 0)%Z then (-1)%Z else remaining0 in
                Ret (inr {| exec := exec0; remaining := remaining0;
                            timer := timer1; schedule := sched;
                            location := loc; firstIsFree := true |})
            end
        end
    end.

(** What the [select] on the ticker channel and the context observed. *)
Inductive SelectOutcome : Type :=
| TickReceived
| ChanClosed
| CtxDone.

(** The result of [b.exec.MapPart(0, message.New(nil))]. *)
Inductive MapResult : Type :=
| MapErr (msg : string)
| MapNil
| MapPart (p : Part).

(** Everything one call of [ReadWithContext] takes from its surroundings. *)
Record ReadEnv : Type := mkReadEnv {
  sel : SelectOutcome;
  mapres : MapResult;
  now : Time
}.

(** What a read did that is visible from outside, in order. *)
Inductive Event : Type :=
| EvSelect (o : SelectOutcome)
| EvMapPart
| EvReset (d : Duration).

(** [reader.AsyncAckFn]: a closure; the only state within its reach is the
    reader that made it, which is threaded through explicitly. *)
Definition AsyncAckFn := Bloblang -> Response -> Bloblang * option Err.

(** The closure returned by [ReadWithContext]:
    [func(context.Context, types.Response) error { return nil }]. *)
Definition noop_ack : AsyncAckFn := fun b _ => (b, None).

Inductive Outcome : Type :=
| Emitted (msg : Message) (ack : AsyncAckFn)
| Failed (e : Err)
| Panicked (m : string).

Definition ConnectWithContext (b : Bloblang) : option Err := None.

Definition ReadWithContext (b : Bloblang) (env : ReadEnv)
  : Bloblang * Outcome * list Event :=
  let '(b1, closed) :=
    if (0 <=? remaining b)%Z then
      let r := int32_wrap (remaining b - 1) in
      (with_remaining b r, (r <? 0)%Z)
    else (b, false) in
  if closed then (b1, Failed ErrTypeClosed, [])
  else
    let waits := negb (firstIsFree b1) && bool_decide (is_Some (timer b1)) in
    let tr := if waits then [EvSelect (sel env)] else [] in
    match waits, sel env with
    | true, ChanClosed => (b1, Failed ErrTypeClosed, tr)
    | true, CtxDone => (b1, Failed ErrTimeout, tr)
    | _, _ =>
        let b2 := with_firstIsFree b1 false in
        match mapres env with
        | MapErr e => (b2, Failed (ErrOther e), (tr ++ [EvMapPart])%list)
        | MapNil => (b2, Failed ErrTimeout, (tr ++ [EvMapPart])%list)
        | MapPart p =>
            let msg := Append (message_New []) p in
            match schedule b2 with
            | None => (b2, Emitted msg noop_ack, (tr ++ [EvMapPart])%list)
            | Some sched =>
                match location b2, timer b2 with
                | Some loc, Some t =>
                    let d := getDurationTillNextSchedule sched loc (now env) in
                    match Reset t d with
                    | Ret t' =>
                        (with_timer b2 (Some t'), Emitted msg noop_ack,
                         (tr ++ [EvMapPart; EvReset d])%list)
                    | Panic m => (b2, Panicked m, (tr ++ [EvMapPart])%list)
                    end
                | None, _ =>
                    (b2, Panicked "time: missing Location in call to Time.In",
                     (tr ++ [EvMapPart])%list)
                | Some _, None =>
                    (b2, Panicked "invalid memory address or nil pointer dereference",
                     (tr ++ [EvMapPart])%list)
                end
            end
        end
    end.

Definition CloseAsync (b : Bloblang) : Bloblang :=
  match timer b with
  | Some t => with_timer b (Some (Stop t))
  | None => b
  end.

Definition WaitForClose (b : Bloblang) (timeout : Duration) : option Err := None.

(** A driver calling [ReadWithContext] once per element of [envs]; a panic
    ends the run. *)
Fixpoint reads (b : Bloblang) (envs : list ReadEnv)
  : Bloblang * list (Outcome * list Event) :=
  match envs with
  | [] => (b, [])
  | env :: rest =>
      let '(b', out, tr) := ReadWithContext b env in
      match out with
      | Panicked _ => (b', [(out, tr)])
      | _ => let '(b'', outs) := reads b' rest in (b'', (out, tr) :: outs)
      end
  end.

Definition is_emitted (o : Outcome) : bool :=
  match o with Emitted _ _ => true | _ => false end.

Definition is_select (e : Event) : bool :=
  match e with EvSelect _ => true | _ => false end.

(** Did the read block on the ticker / context? *)
Definition waited (tr : list Event) : bool := existsb is_select tr.

(** The count check at the head of [ReadWithContext]. *)
Definition count_check (b : Bloblang) : Bloblang * bool :=
  if (0 <=? remaining b)%Z then
    let r := int32_wrap (remaining b - 1) in
    (with_remaining b r, (r <? 0)%Z)
  else (b, false).

Definition emitted_all (outs : list (Outcome * list Event)) : Prop :=
  Forall (fun o => is_emitted (fst o) = true) outs.

(** The state a constructor leaves behind and every read keeps: a cron
    schedule comes with its location and its ticker, and the count is an
    int32 that is either the unlimited mark or not negative. *)
Definition well_formed (b : Bloblang) : Prop :=
  (is_Some (schedule b) -> is_Some (location b) /\ is_Some (timer b))
  /\ (-1 <= remaining b < 2147483648)%Z.

(** A read during which the tick arrives, the mapping yields a part and the
    cron schedule (if any) names a later instant. *)
Definition good_env (b : Bloblang) (env : ReadEnv) : Prop :=
  sel env = TickReceived
  /\ (exists p, mapres env = MapPart p)
  /\ (forall sched loc, schedule b = Some sched -> location b = Some loc ->
        (0 < getDurationTillNextSchedule sched loc (now env))%Z).

(** The claim that resolving twice is told apart from resolving once: the
    second call of the acknowledgment of a batch read from [b] under [env]
    changes nothing more and reports an error. *)
Definition double_resolve_detected (b : Bloblang) (env : ReadEnv) : Prop :=
  forall b' msg ack tr,
    ReadWithContext b env = (b', Emitted msg ack, tr) ->
    forall r1 r2 : Response,
      let '(s1, _) := ack b' r1 in
      let '(s2, e2) := ack s1 r2 in
      s2 = s1 /\ e2 <> None.

(** The claim that every read after the first one blocks on the ticker. *)
Definition later_reads_block (b : Bloblang) (envs : list ReadEnv) : Prop :=
  forall o tr, (o, tr) ∈ tail (snd (reads b envs)) -> waited tr = true.

(** Fixtures: a parsed configuration world, a reader ticking every second,
    a schedule that fires at every full minute. *)
Definition every_minute : Schedule :=
  {| Next := fun t => {| instant := (instant t + (60000000000 - instant t `mod` 60000000000))%Z;
                         zone := zone t |} |}.

Definition test_ext : Externals :=
  {| ParseDuration := fun _ => inr Second;
     LoadLocation := fun tz => inr tz;
     cronParse := fun _ => inr every_minute;
     NewMapping := fun src => inr {| mapping_source := src |} |}.

Definition interval_conf (count : Z) : BloblangConfig :=
  {| Mapping := "root = 1"; Interval := "1s"; CronExpression := ""; Count := count |}.

Definition interval_reader (count : Z) : Bloblang :=
  {| remaining := count; firstIsFree := true;
     exec := {| mapping_source := "root = 1" |};
     timer := Some {| period := Second; stopped := false |};
     schedule := None; location := None |}.

Definition cron_reader (p : Duration) : Bloblang :=
  {| remaining := (-1)%Z; firstIsFree := false;
     exec := {| mapping_source := "root = 1" |};
     timer := Some {| period := p; stopped := false |};
     schedule := Some every_minute; location := Some "UTC" |}.

Definition epoch : Time := {| instant := 0; zone := "Local" |}.

Definition tick_env : ReadEnv :=
  {| sel := TickReceived; mapres := MapPart "1"; now := epoch |}.

Definition cancelled_env : ReadEnv :=
  {| sel := CtxDone; mapres := MapPart "1"; now := epoch |}.

Definition late_env : ReadEnv :=
  {| sel := TickReceived; mapres := MapPart "1";
     now := {| instant := 59500000000; zone := "Local" |} |}.

Definition eager_conf : BloblangConfig :=
  {| Mapping := "root = 1"; Interval := ""; CronExpression := ""; Count := 0 |}.

Definition eager_reader : Bloblang :=
  {| remaining := (-1)%Z; firstIsFree := true;
     exec := {| mapping_source := "root = 1" |};
     timer := None; schedule := None; location := None |}.

Definition failing_env : ReadEnv :=
  {| sel := TickReceived; mapres := MapErr "boom"; now := epoch |}.

(** A schedule that never fires again: [Next] returns the zero time. *)
Definition never_again : Schedule :=
  {| Next := fun t => {| instant := (-62135596800000000000)%Z; zone := zone t |} |}.

Definition never_ext : Externals :=
  {| ParseDuration := fun _ => inr Second;
     LoadLocation := fun tz => inr tz;
     cronParse := fun _ => inr never_again;
     NewMapping := fun src => inr {| mapping_source := src |} |}.

Definition cron_conf (expr : string) : BloblangConfig :=
  {| Mapping := "root = 1"; Interval := ""; CronExpression := expr; Count := 0 |}.

Definition empty_env : ReadEnv :=
  {| sel := TickReceived; mapres := MapNil; now := epoch |}.

End Input.

(** ** lib/output/writer: the SFTP writer's connection set-up *)
Module SFTPWriter.

Record SFTPCredentials : Type := mkCredentials { Username : string; Secret : string }.

Record SFTPConfig : Type := mkSFTPConfig {
  Server : string;
  Port : Z;
  Credentials : SFTPCredentials
}.

(** What [initSFTPConnection] does that is visible from outside. *)
Inductive Event : Type :=
| EvDial (addr : string)
| EvCounterIncr (name : string) (n : Z)
| EvLogError (msg : string)
| EvSleep (d : Duration)
| EvNewClient.

(** The network as one call sequence sees it: the error of the n-th
    [ssh.Dial] (numbered from 1; [None] is a connection) and the error of
    [sftp.NewClient]. *)
Record Network : Type := mkNetwork {
  dial : Z -> option string;
  newClient : option string
}.

(** [*sftp.Client]: the address it is connected to. *)
Record Client : Type := mkClient { client_addr : string }.

Record SFTP : Type := mkSFTP {
  conf : SFTPConfig;
  client : option Client
}.

Inductive LoopExit : Type :=
| Dialed
| Returned (err : string).

(** The [for { ... }] loop of [initSFTPConnection]: [fuel] bounds the number
    of iterations the model runs, [None] means the loop is still going. *)
Fixpoint dial_loop (net : Network) (addr : string) (fuel : nat)
    (connectionAttempts : Z) : option (LoopExit * list Event) :=
  match fuel with
  | O => None
  | S fuel' =>
      let connectionAttempts := (connectionAttempts + 1)%Z in
      match dial net connectionAttempts with
      | Some err =>
          let evs := [EvDial addr; EvCounterIncr "connection_errors" 1;
                      EvLogError ("Failed to dial: " +:+ err)] in
          if (10 <=? connectionAttempts)%Z then
            Some (Returned "failed to connect to SFTP server",
                  (evs ++ [EvLogError ("Failed to connect after %!i(int="
                                       +:+ pretty connectionAttempts
                                       +:+ ") attempts, stopping")])%list)
          else
            match dial_loop net addr fuel' connectionAttempts with
            | None => None
            | Some (exit, evs') =>
                Some (exit, (evs ++ EvSleep (5 * Second)%Z :: evs')%list)
            end
      | None => Some (Dialed, [EvDial addr])
      end
  end.

(** [initSFTPConnection]: the updated writer, the returned error and the
    events, when the loop ends within [fuel] iterations. *)
Definition initSFTPConnection (s : SFTP) (net : Network) (fuel : nat)
  : option (SFTP * option string * list Event) :=
  let addr := Server (conf s) +:+ ":" +:+ pretty (Port (conf s)) in
  match dial_loop net addr fuel 0 with
  | None => None
  | Some (Returned err, evs) => Some (s, Some err, evs)
  | Some (Dialed, evs) =>
      match newClient net with
      | Some err =>
          Some ({| conf := conf s; client := None |}, Some err,
                (evs ++ [EvNewClient; EvCounterIncr "client_errors" 1;
                         EvLogError ("Failed to create client: " +:+ err)])%list)
      | None =>
          Some ({| conf := conf s; client := Some {| client_addr := addr |} |},
                None, (evs ++ [EvNewClient])%list)
      end
  end.

(** The number of [ssh.Dial] calls and the pauses slept, in order. *)
Fixpoint dials (evs : list Event) : nat :=
  match evs with
  | [] => 0
  | EvDial _ :: rest => S (dials rest)
  | _ :: rest => dials rest
  end.

Fixpoint sleeps (evs : list Event) : list Duration :=
  match evs with
  | [] => []
  | EvSleep d :: rest => d :: sleeps rest
  | _ :: rest => sleeps rest
  end.

(** Fixtures: a server that never answers, one that answers the third call. *)
Definition test_sftp : SFTP :=
  {| conf := {| Server := "localhost"; Port := 22;
                Credentials := {| Username := "foo"; Secret := "pass" |} |};
     client := None |}.

Definition unreachable : Network :=
  {| dial := fun _ => Some "connection refused"; newClient := None |}.

Definition third_time_lucky : Network :=
  {| dial := fun n => if (n <? 3)%Z then Some "connection refused" else None;
     newClient := None |}.

(** *** Writing a part

    The function [WriteWithContext] hands to [IterateBatchedSend] for each
    part. The writer's [filepath] expression is passed alongside the writer;
    [filepath.Dir] and the server's answers are inputs. *)

(** [field.Expression]: [String(i, msg)]. *)
Definition Expression := nat -> list string -> string.

(** [os.O_APPEND] and [os.O_RDWR] (Linux). *)
Definition O_RDWR : Z := 2.
Definition O_APPEND : Z := 1024.

(** The answers of the SFTP server to the calls a part gives rise to;
    [None] is success. *)
Record Remote : Type := mkRemote {
  Stat : string -> option string;
  MkdirAll : string -> option string;
  Create : string -> option string;
  OpenFile : string -> Z -> option string;
  FileWrite : string -> string -> option string;
  Dir : string -> string
}.

Inductive FileEvent : Type :=
| EvStat (path : string)
| EvMkdirAll (dir : string)
| EvCreate (path : string)
| EvOpenFile (path : string) (flags : Z)
| EvFileWrite (path : string) (data : string)
| EvFileClose (path : string)
| EvFileLog (msg : string).

Definition write_part (s : SFTP) (filepath : Expression) (srv : Remote)
    (msg : list string) (i : nat) (p : string)
  : Res (option string * list FileEvent) :=
  match client s with
  | None => Panic "invalid memory address or nil pointer dereference"
  | Some _ =>
      let path := filepath i msg in
      let opened : option string * list FileEvent :=
        match Stat srv path with
        | Some _ =>
            let dir := Dir srv path in
            match MkdirAll srv dir with
            | Some err =>
                (Some err, [EvStat path; EvMkdirAll dir;
                            EvFileLog ("Error creating directories: " +:+ err)])
            | None =>
                match Create srv path with
                | Some err =>
                    (Some err, [EvStat path; EvMkdirAll dir; EvCreate path;
                                EvFileLog ("Error creating file: " +:+ err)])
                | None => (None, [EvStat path; EvMkdirAll dir; EvCreate path])
                end
            end
        | None =>
            match OpenFile srv path (Z.lor O_APPEND O_RDWR) with
            | Some err =>
                (Some err, [EvStat path; EvOpenFile path (Z.lor O_APPEND O_RDWR);
                            EvFileLog ("Error opening file: " +:+ err)])
            | None => (None, [EvStat path; EvOpenFile path (Z.lor O_APPEND O_RDWR)])
            end
        end in
      match opened with
      | (Some err, evs) => Ret (Some err, evs)
      | (None, evs) =>
          let str := p in
          match FileWrite srv path str with
          | Some err =>
              Ret (Some err, (evs ++ [EvFileWrite path str;
                                      EvFileLog ("Error writing to file: " +:+ err)])%list)
          | None => Ret (None, (evs ++ [EvFileWrite path str])%list)
          end
      end
  end.

(** Fixtures: a connected writer, a server holding one file. *)
Definition connected_sftp : SFTP :=
  {| conf := conf test_sftp; client := Some {| client_addr := "localhost:22" |} |}.

Definition upload_path : Expression :=
  fun i msg => "upload/file-" +:+ pretty i +:+ ".txt".

Definition one_file_server : Remote :=
  {| Stat := fun path => if String.eqb path "upload/file-0.txt" then None
                         else Some "file does not exist";
     MkdirAll := fun _ => None;
     Create := fun _ => None;
     OpenFile := fun _ _ => None;
     FileWrite := fun _ _ => None;
     Dir := fun _ => "upload" |}.

Definition flaky : Network :=
  {| dial := fun n => if (n =? 4)%Z then None else Some "connection refused";
     newClient := Some "handshake failed" |}.

End SFTPWriter.

(** ** The DynamoDB PartiQL write path

    lib/output/writer/dynamodb_partiql_test.go drives [DynamoDB.Write]
    through a mocked client; the writer itself and internal/batch are not
    among the sources, so both are modelled from the specification
    (sections 3, 4.5 and 4.6) and checked against the four tests. *)
Module DynamoDB.

Definition Part := string.
Definition Stmt := string.

(** Modelled from the spec: internal/batch's [Error] is missing; section 3
    describes a Batch Error as a base error plus a sparse mapping from record
    index to per-record error, attached to the batch that produced it. *)
Record BatchError : Type := mkBatchError {
  source : list Part;
  headline : string;
  erroredBatchItems : gmap nat string
}.

Definition NewError (msg : list Part) (err : string) : BatchError :=
  {| source := msg; headline := err; erroredBatchItems := ∅ |}.

Definition Failed (i : nat) (err : string) (be : BatchError) : BatchError :=
  {| source := source be; headline := headline be;
     erroredBatchItems := <[i := err]> (erroredBatchItems be) |}.

Definition IndexedErrors (be : BatchError) : nat := size (erroredBatchItems be).

(** Modelled from the spec: the Partial-Batch-Failure Tracker of section 4.6
    is missing. The next attempt's batch is the ordered sub-sequence of
    records whose index appears in the failure mapping, renumbered from 0;
    [i] is the index of the head of [batch]. *)
Fixpoint retry_from {A : Type} (i : nat) (batch : list A)
    (failures : gmap nat string) : list A :=
  match batch with
  | [] => []
  | r :: rest =>
      match failures !! i with
      | Some _ => r :: retry_from (S i) rest failures
      | None => retry_from (S i) rest failures
      end
  end.

Definition retry_batch {A : Type} (batch : list A) (failures : gmap nat string)
  : list A := retry_from 0 batch failures.

(** Modelled from the spec: the client's bulk call is missing; section 4.5
    gives its outcome classes: the call itself failed, or it returned with
    a (possibly empty) mapping from the indices of the statements it was
    given to their errors. *)
Inductive BulkOutcome : Type :=
| BulkFailed (err : string)
| BulkReturned (failures : gmap nat string).

(** The client behind the writer: [pbatchFn k stmts] is the outcome of the
    bulk call made after [k] earlier bulk calls, [pfn k stmt] that of the
    single-statement call made after [k] earlier ones ([None] is success). *)
Record Client : Type := mkClient {
  pbatchFn : nat -> list Stmt -> BulkOutcome;
  pfn : nat -> Stmt -> option string
}.

(** [evaluate i batch] is the statement of record [i] (section 6); the bound
    on bulk attempts is policy. *)
Record DynamoDBConfig : Type := mkDynamoDBConfig {
  evaluate : nat -> list Part -> Stmt;
  max_attempts : nat
}.

Inductive Event : Type :=
| EvBatchExecute (stmts : list Stmt)
| EvExecute (stmt : Stmt).

(** Modelled from the spec: the bulk-to-per-record degradation of section
    4.5. Every pending record is run individually, in order, and the
    failures are recorded under the records' original indices. *)
Fixpoint run_individually (c : Client) (k : nat) (pending : list (nat * Stmt))
    (be : BatchError) : BatchError * list Event :=
  match pending with
  | [] => (be, [])
  | (i, st) :: rest =>
      let be' := match pfn c k st with
                 | Some err => Failed i err be
                 | None => be
                 end in
      let '(be'', evs) := run_individually c (S k) rest be' in
      (be'', EvExecute st :: evs)
  end.

(** The text filed for a record that is still outstanding. *)
Definition outstanding_text (st : Stmt) : string :=
  "failed to process statement: " +:+ st.

(** Modelled from the spec: the error surfaced when the attempts are used
    up (section 4.6), one entry per record still outstanding, under its
    original index; the wording of the messages is that expected by
    TestDynamoDBPartiqlSadBatch. *)
Definition outstanding_error (msg : list Part) (pending : list (nat * Stmt))
  : BatchError :=
  fold_right (fun '(i, st) be => Failed i (outstanding_text st) be)
    (NewError msg ("failed to process " +:+ pretty (length pending) +:+ " statements"))
    pending.

(** Modelled from the spec: the write loop of sections 4.5 and 4.6.
    [pending] pairs each record still to be written with its original
    index; [attempts_left] bulk attempts may follow this one; [k] bulk calls
    were made before. *)
Fixpoint write_attempt (c : Client) (msg : list Part) (attempts_left k : nat)
    (pending : list (nat * Stmt)) : option BatchError * list Event :=
  let stmts := pending.*2 in
  match pbatchFn c k stmts with
  | BulkFailed err =>
      let '(be, evs) := run_individually c 0 pending (NewError msg err) in
      (if (IndexedErrors be =? 0)%nat then None else Some be,
       EvBatchExecute stmts :: evs)
  | BulkReturned failures =>
      match retry_batch pending failures with
      | [] => (None, [EvBatchExecute stmts])
      | retry =>
          match attempts_left with
          | O => (Some (outstanding_error msg retry), [EvBatchExecute stmts])
          | S n =>
              let '(res, evs) := write_attempt c msg n (S k) retry in
              (res, EvBatchExecute stmts :: evs)
          end
      end
  end.

Definition statements (cfg : DynamoDBConfig) (msg : list Part) : list (nat * Stmt) :=
  imap (fun i _ => (i, evaluate cfg i msg)) msg.

Definition Write (cfg : DynamoDBConfig) (c : Client) (msg : list Part)
  : option BatchError * list Event :=
  write_attempt c msg (Nat.pred (max_attempts cfg)) 0 (statements cfg msg).


Definition single_calls (evs : list Event) : list Stmt :=
  omap (fun e => match e with EvExecute s => Some s | _ => None end) evs.

(** The fixtures of dynamodb_partiql_test.go, with the documents and the
    statements built from them shortened to one word each. *)
Definition test_msg : list Part := ["foo"; "bar"; "baz"].

Definition test_cfg (attempts : nat) : DynamoDBConfig :=
  {| evaluate := fun i msg => "INSERT " +:+ default "" (msg !! i);
     max_attempts := attempts |}.

Definition bar_failures (stmts : list Stmt) : gmap nat string :=
  list_to_map (omap (fun '(i, st) => if Contains st "bar" then Some (i, "") else None)
                    (imap pair stmts)).

(** The mocked clients of the four failure tests. *)
Definition sad_to_good_client : Client :=
  {| pbatchFn := fun _ _ => BulkFailed "woop"; pfn := fun _ _ => None |}.

Definition sad_client : Client :=
  {| pbatchFn := fun _ _ => BulkFailed "woop";
     pfn := fun _ st => if Contains st "bar" then Some "dont like bar" else None |}.

Definition sad_to_good_batch_client : Client :=
  {| pbatchFn := fun k stmts =>
       if (k =? 0)%nat then BulkReturned (bar_failures stmts) else BulkReturned ∅;
     pfn := fun _ _ => Some "not implemented" |}.

Definition sad_batch_client : Client :=
  {| pbatchFn := fun _ stmts => BulkReturned (bar_failures stmts);
     pfn := fun _ _ => Some "not implemented" |}.

End DynamoDB.

(** ** lib/output/writer: the Azure Blob Storage writer *)
Module AzureBlobStorageWriter.

Definition Part := string.

(** [field.Expression]: [String(i, msg)]. *)
Definition Expression := nat -> list Part -> string.

Record AzureBlobStorageConfig : Type := mkAzureBlobStorageConfig {
  StorageAccount : string;
  StorageAccessKey : string;
  Container : string;
  Path : string;
  BlobType : string;
  Timeout : string;
  MaxInFlight : Z
}.

(** The one-character string holding a double quote. *)
Definition dquote : string := String (Ascii.ascii_of_nat 34) EmptyString.

Definition NewAzureBlobStorageConfig : AzureBlobStorageConfig :=
  {| StorageAccount := ""; StorageAccessKey := ""; Container := "";
     Path := "${!count(" +:+ dquote +:+ "files" +:+ dquote
             +:+ ")}-${!timestamp_unix_nano()}.txt";
     BlobType := "BLOCK"; Timeout := "5s"; MaxInFlight := 1 |}.

Record AzureBlobStorage : Type := mkAzureBlobStorage {
  conf : AzureBlobStorageConfig;
  container : Expression;
  path : Expression;
  blobType : Expression;
  timeout : Duration
}.

(** A Go error as this writer looks at it: the service code when it is an
    [azblob.StorageError], and its message. *)
Record AzError : Type := mkAzError {
  service_code : option string;
  text : string
}.

Definition plain_error (m : string) : AzError :=
  {| service_code := None; text := m |}.

(** [azblob.ServiceCodeContainerNotFound]. *)
Definition ServiceCodeContainerNotFound : string := "ContainerNotFound".

(** The library calls of the constructor and of [getContainer]. *)
Record Externals : Type := mkExternals {
  ParseDuration : string -> string + Duration;
  field_New : string -> string + Expression;
  NewSharedKeyCredential : string -> string -> option string
}.

Definition NewAzureBlobStorage (ext : Externals) (cfg : AzureBlobStorageConfig)
  : string + AzureBlobStorage :=
  let parsed_timeout : string + Duration :=
    if (0 <? String.length (Timeout cfg))%nat then
      match ParseDuration ext (Timeout cfg) with
      | inl err => inl ("failed to parse timeout period string: " +:+ err)
      | inr d => inr d
      end
    else inr 0%Z in
  match parsed_timeout with
  | inl err => inl err
  | inr tout =>
      match field_New ext (Container cfg) with
      | inl err => inl ("failed to parse container expression: " +:+ err)
      | inr c =>
          match field_New ext (Path cfg) with
          | inl err => inl ("failed to parse path expression: " +:+ err)
          | inr pth =>
              match field_New ext (BlobType cfg) with
              | inl err => inl ("failed to parse blob type expression: " +:+ err)
              | inr bt =>
                  inr {| conf := cfg; container := c; path := pth;
                         blobType := bt; timeout := tout |}
              end
          end
      end
  end.

Definition Connect (a : AzureBlobStorage) : option AzError := None.

(** [*azblob.ContainerURL]: the address it was built for. *)
Record ContainerURL : Type := mkContainerURL { url : string }.

Definition getContainer (ext : Externals) (a : AzureBlobStorage) (name : string)
  : AzError + ContainerURL :=
  let accountName := StorageAccount (conf a) in
  let accountKey := StorageAccessKey (conf a) in
  if (String.length accountName =? 0)%nat || (String.length accountKey =? 0)%nat
  then inl (plain_error "invalid azure storage account credentials")
  else
    match NewSharedKeyCredential ext accountName accountKey with
    | Some err =>
        inl (plain_error ("invalid azure storage account credentials: " +:+ err))
    | None =>
        inr {| url := "https://" +:+ accountName +:+ ".blob.core.windows.net/" +:+ name |}
    end.

(** What the storage service answers to the calls made for part [i];
    [None] is success. *)
Record Service : Type := mkService {
  UploadStreamToBlockBlob : nat -> ContainerURL -> string -> string -> option AzError;
  AppendBlock : nat -> ContainerURL -> string -> string -> option AzError;
  CreateContainer : nat -> ContainerURL -> option AzError
}.

Inductive Event : Type :=
| EvUploadBlock (i : nat) (c : ContainerURL) (blobName : string) (data : string)
| EvAppendBlock (i : nat) (c : ContainerURL) (blobName : string) (data : string)
| EvCreateContainer (i : nat) (c : ContainerURL)
| EvLog (i : nat) (msg : string).

Definition uploadToBlob (svc : Service) (i : nat) (message : string)
    (blobName blobType_ : string) (containerURL : ContainerURL)
  : option AzError * list Event :=
  if String.eqb blobType_ "BLOCK" then
    (UploadStreamToBlockBlob svc i containerURL blobName message,
     [EvUploadBlock i containerURL blobName message])
  else if String.eqb blobType_ "APPEND" then
    (AppendBlock svc i containerURL blobName message,
     [EvAppendBlock i containerURL blobName message])
  else (None, []).

Definition containerNotFound (err : AzError) : bool :=
  match service_code err with
  | Some code => String.eqb code ServiceCodeContainerNotFound
  | None => Contains (text err) "ContainerNotFound"
  end.

(** The function [WriteWithContext] hands to [msg.Iter]. *)
Definition write_part (ext : Externals) (a : AzureBlobStorage) (svc : Service)
    (msg : list Part) (i : nat) (p : Part) : option AzError * list Event :=
  match getContainer ext a (container a i msg) with
  | inl err => (Some err, [])
  | inr c =>
      match uploadToBlob svc i p (path a i msg) (blobType a i msg) c with
      | (Some err, evs) =>
          let evs := (evs ++ [EvLog i ("Error uploading blob: " +:+ text err +:+ ".")])%list in
          if containerNotFound err then
            match CreateContainer svc i c with
            | Some cerr =>
                (Some err,
                 (evs ++ [EvCreateContainer i c;
                          EvLog i ("Error creating container: " +:+ text cerr +:+ ".")])%list)
            | None => (Some err, (evs ++ [EvCreateContainer i c])%list)
            end
          else (Some err, evs)
      | (None, evs) => (None, evs)
      end
  end.

(** Modelled from the spec: [types.Message.Iter] (lib/message) is missing;
    section 4.1 describes it as iteration by index with early exit on
    error. [i] is the index of the head of [parts]. *)
Fixpoint Iter {E Ev : Type} (f : nat -> Part -> option E * list Ev)
    (i : nat) (parts : list Part) : option E * list Ev :=
  match parts with
  | [] => (None, [])
  | p :: rest =>
      match f i p with
      | (Some err, evs) => (Some err, evs)
      | (None, evs) =>
          let '(res, evs') := Iter f (S i) rest in (res, (evs ++ evs')%list)
      end
  end.

Definition WriteWithContext (ext : Externals) (a : AzureBlobStorage)
    (svc : Service) (msg : list Part) : option AzError * list Event :=
  Iter (write_part ext a svc msg) 0 msg.

Definition event_index (e : Event) : nat :=
  match e with
  | EvUploadBlock i _ _ _ | EvAppendBlock i _ _ _
  | EvCreateContainer i _ | EvLog i _ => i
  end.

Definition is_upload (e : Event) : bool :=
  match e with
  | EvUploadBlock _ _ _ _ | EvAppendBlock _ _ _ _ => true
  | _ => false
  end.

Definition is_create (e : Event) : bool :=
  match e with EvCreateContainer _ _ => true | _ => false end.

(** Fixtures: an account, a writer into one container, a service without
    that container. *)
Definition test_ext : Externals :=
  {| ParseDuration := fun _ => inr (5 * Second)%Z;
     field_New := fun src => inr (fun _ _ => src);
     NewSharedKeyCredential := fun _ _ => None |}.

Definition test_writer (blob : string) : AzureBlobStorage :=
  {| conf := {| StorageAccount := "acct"; StorageAccessKey := "a2V5";
                Container := "logs"; Path := "out.txt"; BlobType := blob;
                Timeout := "5s"; MaxInFlight := 1 |};
     container := fun _ _ => "logs";
     path := fun i _ => "out-" +:+ pretty i +:+ ".txt";
     blobType := fun _ _ => blob;
     timeout := (5 * Second)%Z |}.

Definition no_account_writer : AzureBlobStorage :=
  {| conf := NewAzureBlobStorageConfig;
     container := fun _ _ => "logs";
     path := fun _ _ => "out.txt";
     blobType := fun _ _ => "BLOCK";
     timeout := (5 * Second)%Z |}.

Definition missing_container : AzError :=
  {| service_code := Some "ContainerNotFound";
     text := "The specified container does not exist." |}.

Definition healthy_service : Service :=
  {| UploadStreamToBlockBlob := fun _ _ _ _ => None;
     AppendBlock := fun _ _ _ _ => None;
     CreateContainer := fun _ _ => None |}.

Definition second_part_fails : Service :=
  {| UploadStreamToBlockBlob := fun i _ _ _ =>
       if (i =? 1)%nat then Some missing_container else None;
     AppendBlock := fun _ _ _ _ => None;
     CreateContainer := fun _ _ => None |}.

End AzureBlobStorageWriter.

(** * Properties *)

(** ** The generated-message input *)
Module InputSpec.
Import Input.

Lemma int32_wrap_small (z : Z) :
  (-2147483648 <= z < 2147483648)%Z -> int32_wrap z = z.
Proof.
  intros Hz. unfold int32_wrap.
  rewrite Z.mod_small by lia. lia.
Qed.

Example newBloblang_interval :
  newBloblang test_ext (interval_conf 2) epoch = Ret (inr (interval_reader 2)).
Proof. reflexivity. Qed.

Example newBloblang_unlimited :
  newBloblang test_ext (interval_conf 0) epoch = Ret (inr (interval_reader (-1))).
Proof. reflexivity. Qed.

(** Case analysis on the innermost scrutinee of a hypothesis. *)
Ltac destruct_scrutinee H :=
  match type of H with
  | context [match ?x with _ => _ end] =>
      lazymatch x with
      | context [match _ with _ => _ end] => fail
      | _ => destruct x eqn:?
      end
  end.

Ltac case_scrutinee :=
  match goal with
  | |- context [match ?x with _ => _ end] =>
      lazymatch x with
      | context [match _ with _ => _ end] => fail
      | _ => destruct x eqn:?
      end
  end.

(** The count kept by a freshly constructed reader. *)
Lemma newBloblang_state ext conf now0 b :
  newBloblang ext conf now0 = Ret (inr b) ->
  firstIsFree b = true
  /\ remaining b = (if (int32_wrap (Count conf) <=? 0)%Z then (-1)%Z
                    else int32_wrap (Count conf))
  /\ well_formed b.
Proof.
  unfold newBloblang. intros H. cbv zeta in H.
  repeat (destruct_scrutinee H; try discriminate).
  all: injection H as <-; cbn [firstIsFree remaining].
  all: split; [reflexivity|]; split; [try reflexivity|].
  all: unfold well_formed; cbn [schedule location timer remaining].
  all: try (split; [intros [? ?]; try discriminate; split; eauto|]).
  all: try (pose proof (Z.mod_pos_bound (Count conf + 2147483648) 4294967296 ltac:(lia));
            unfold int32_wrap in *; lia).
Qed.

Lemma count_check_spec b :
  (-1 <= remaining b < 2147483648)%Z ->
  count_check b =
    if (remaining b =? -1)%Z then (b, false)
    else (with_remaining b (remaining b - 1), (remaining b =? 0)%Z).
Proof.
  intros Hr. unfold count_check.
  destruct (Z.eqb_spec (remaining b) (-1)) as [->|Hne]; [reflexivity|].
  destruct (Z.leb_spec 0 (remaining b)); [|lia].
  cbv zeta. rewrite int32_wrap_small by lia.
  f_equal. destruct (Z.eqb_spec (remaining b) 0); lia.
Qed.

(** A read that gets its tick and its part emits exactly that part. *)
Lemma read_good b env :
  well_formed b -> good_env b env -> remaining b <> 0%Z ->
  exists p b' tr,
    ReadWithContext b env = (b', Emitted [p] noop_ack, tr)
    /\ mapres env = MapPart p
    /\ remaining b' = (if (remaining b =? -1)%Z then (-1)%Z else (remaining b - 1)%Z)
    /\ firstIsFree b' = false
    /\ schedule b' = schedule b
    /\ location b' = location b
    /\ (is_Some (timer b') <-> is_Some (timer b))
    /\ waited tr = negb (firstIsFree b) && bool_decide (is_Some (timer b)).
Proof.
  intros [Hcron Hrem] (Hsel & [p Hp] & Hdur) Hnz.
  exists p. unfold ReadWithContext. fold (count_check b).
  rewrite count_check_spec by assumption.
  set (b1 := if (remaining b =? -1)%Z then b else with_remaining b (remaining b - 1)).
  assert (Hb1 : (if (remaining b =? -1)%Z then (b, false)
                 else (with_remaining b (remaining b - 1), (remaining b =? 0)%Z))
                = (b1, false)).
  { subst b1. destruct (Z.eqb_spec (remaining b) (-1)); [reflexivity|].
    destruct (Z.eqb_spec (remaining b) 0); [lia|reflexivity]. }
  rewrite Hb1. clear Hb1.
  assert (Hf : firstIsFree b1 = firstIsFree b) by (subst b1; destruct (_ =? _)%Z; reflexivity).
  assert (Ht : timer b1 = timer b) by (subst b1; destruct (_ =? _)%Z; reflexivity).
  assert (Hs : schedule b1 = schedule b) by (subst b1; destruct (_ =? _)%Z; reflexivity).
  assert (Hl : location b1 = location b) by (subst b1; destruct (_ =? _)%Z; reflexivity).
  assert (Hr : remaining b1 = if (remaining b =? -1)%Z then (-1)%Z else (remaining b - 1)%Z).
  { subst b1. destruct (Z.eqb_spec (remaining b) (-1)); [assumption|reflexivity]. }
  clearbody b1. cbv zeta. rewrite Hsel, Hp, Hf, Ht.
  cbn [schedule location timer with_firstIsFree]. rewrite Hs, Hl, Ht.
  destruct (schedule b) as [sched|] eqn:Hsched.
  - destruct Hcron as [[loc Hloc] [t Htm]]; [eauto|].
    rewrite Hloc, Htm. unfold Reset.
    specialize (Hdur sched loc eq_refl Hloc).
    destruct (Z.leb_spec (getDurationTillNextSchedule sched loc (now env)) 0); [lia|].
    destruct (negb (firstIsFree b) && bool_decide (is_Some (Some t))) eqn:Hw;
      eexists _, _; (split; [reflexivity|]); cbn; rewrite ?Hr, ?Hs, ?Hl;
      repeat split; eauto.
  - destruct (negb (firstIsFree b) && bool_decide (is_Some (timer b))) eqn:Hw;
      eexists _, _; (split; [reflexivity|]); cbn; rewrite ?Hr, ?Hs, ?Hl, ?Ht;
      repeat split; eauto.
Qed.

Lemma good_env_same b b' env :
  schedule b' = schedule b -> location b' = location b ->
  good_env b env -> good_env b' env.
Proof.
  intros Hs Hl (Hsel & Hp & Hd). repeat split; try assumption.
  intros sched loc. rewrite Hs, Hl. apply Hd.
Qed.

Lemma well_formed_step b b' r :
  well_formed b -> schedule b' = schedule b -> location b' = location b ->
  (is_Some (timer b') <-> is_Some (timer b)) ->
  remaining b' = r -> (-1 <= r < 2147483648)%Z ->
  well_formed b'.
Proof.
  intros [Hc _] Hs Hl Ht Hr Hrange. split; [|lia].
  rewrite Hs, Hl, Ht. exact Hc.
Qed.

(** A read with the count at zero reports Closed before anything else. *)
Lemma read_exhausted b env :
  remaining b = 0%Z ->
  ReadWithContext b env = (with_remaining b (-1), Failed ErrTypeClosed, []).
Proof.
  intros H0. unfold ReadWithContext. rewrite H0. reflexivity.
Qed.

(** With the unlimited mark every good read emits, however many follow. *)
Lemma reads_unlimited envs : forall b,
  well_formed b -> remaining b = (-1)%Z -> Forall (good_env b) envs ->
  exists b' outs, reads b envs = (b', outs)
    /\ length outs = length envs /\ emitted_all outs /\ remaining b' = (-1)%Z.
Proof.
  induction envs as [|env rest IH]; intros b Hwf Hrem Hgood.
  - exists b, []. repeat split; [constructor|assumption].
  - inversion Hgood as [|? ? Hg Hrest]; subst.
    destruct (read_good b env Hwf Hg ltac:(lia))
      as (p & b1 & tr & Hread & _ & Hr1 & _ & Hs & Hl & Ht & _).
    rewrite Hrem in Hr1. cbn in Hr1.
    destruct (IH b1) as (b' & outs & Hreads & Hlen & Hall & Hfin).
    + eapply well_formed_step; eauto; lia.
    + assumption.
    + eapply Forall_impl; [exact Hrest|]. intros e. cbn. apply good_env_same; assumption.
    + exists b', ((Emitted [p] noop_ack, tr) :: outs).
      cbn [reads]. rewrite Hread, Hreads. cbn.
      repeat split; [lia| constructor; [reflexivity|assumption] | assumption].
Qed.

(** A count of [length envs] is used up by that many good reads and the
    read after them reports Closed. *)
Lemma reads_countdown envs : forall b env_last,
  well_formed b -> remaining b = Z.of_nat (length envs) ->
  Forall (good_env b) envs ->
  exists b' outs,
    reads b (envs ++ [env_last])%list = (b', (outs ++ [(Failed ErrTypeClosed, [])])%list)
    /\ length outs = length envs /\ emitted_all outs.
Proof.
  induction envs as [|env rest IH]; intros b env_last Hwf Hrem Hgood.
  - exists (with_remaining b (-1)), []. cbn [app reads length].
    rewrite read_exhausted by exact Hrem.
    repeat split. constructor.
  - inversion Hgood as [|? ? Hg Hrest]; subst.
    cbn [length] in Hrem.
    destruct (read_good b env Hwf Hg ltac:(lia))
      as (p & b1 & tr & Hread & _ & Hr1 & _ & Hs & Hl & Ht & _).
    destruct (Z.eqb_spec (remaining b) (-1)) as [|_]; [lia|].
    destruct (IH b1 env_last) as (b' & outs & Hreads & Hlen & Hall).
    + apply (well_formed_step b b1 (remaining b - 1) Hwf Hs Hl Ht Hr1).
      destruct Hwf as [_ ?]. lia.
    + lia.
    + eapply Forall_impl; [exact Hrest|]. intros e. cbn. apply good_env_same; assumption.
    + exists b', ((Emitted [p] noop_ack, tr) :: outs).
      cbn [reads app]. rewrite Hread. fold (rest ++ [env_last])%list. rewrite Hreads. cbn.
      repeat split; [lia| constructor; [reflexivity|assumption]].
Qed.

(** What a read does to the count, whatever else happens in it. *)
Lemma read_remaining b env :
  (-1 <= remaining b < 2147483648)%Z ->
  remaining (ReadWithContext b env).1.1 =
    if (remaining b =? -1)%Z then (-1)%Z else (remaining b - 1)%Z.
Proof.
  intros Hr. unfold ReadWithContext. fold (count_check b).
  rewrite count_check_spec by assumption.
  destruct (Z.eqb_spec (remaining b) (-1)) as [Hm|Hm];
    [|destruct (Z.eqb_spec (remaining b) 0)]; cbv zeta;
    repeat case_scrutinee; cbn; congruence.
Qed.

(** X21. When every read gets its tick and a part: a remaining count of -1
    is unlimited, every such read emits and the count stays -1; a count
    that is not negative goes down by one with each read and the read that
    finds it at zero reports Closed; so a reader built with count n
    (0 < n < 2^31) emits on its first n such reads and reports Closed on
    the read after them. *)
Theorem count_limited_source ext conf now0 b :
  newBloblang ext conf now0 = Ret (inr b) ->
  (forall envs, remaining b = (-1)%Z -> Forall (good_env b) envs ->
     exists b' outs, reads b envs = (b', outs)
       /\ length outs = length envs /\ emitted_all outs
       /\ remaining b' = (-1)%Z)
  /\ (forall b0 env, (0 <= remaining b0 < 2147483648)%Z ->
        remaining (ReadWithContext b0 env).1.1 = (remaining b0 - 1)%Z
        /\ (remaining b0 = 0%Z ->
            (ReadWithContext b0 env).1.2 = Failed ErrTypeClosed))
  /\ ((0 < Count conf < 2147483648)%Z ->
        remaining b = Count conf
        /\ forall envs env_last,
             length envs = Z.to_nat (Count conf) ->
             Forall (good_env b) envs ->
             exists b' outs,
               reads b (envs ++ [env_last])%list
                 = (b', (outs ++ [(Failed ErrTypeClosed, [])])%list)
               /\ length outs = length envs /\ emitted_all outs).
Proof.
  intros Hnew.
  destruct (newBloblang_state _ _ _ _ Hnew) as (_ & Hrem & Hwf).
  split; [|split].
  - intros envs Hm Hgood. apply reads_unlimited; assumption.
  - intros b0 env Hr. split.
    + rewrite read_remaining by lia.
      destruct (Z.eqb_spec (remaining b0) (-1)); [lia|reflexivity].
    + intros H0. rewrite read_exhausted by assumption. reflexivity.
  - intros Hcount. rewrite int32_wrap_small in Hrem by lia.
    destruct (Z.leb_spec (Count conf) 0); [lia|].
    split; [assumption|].
    intros envs env_last Hlen Hgood.
    apply reads_countdown; [assumption| lia |assumption].
Qed.

Lemma count_limited_source_witness :
  exists b' outs,
    reads (interval_reader 2) [tick_env; tick_env; tick_env]
      = (b', (outs ++ [(Failed ErrTypeClosed, [])])%list)
    /\ length outs = 2%nat /\ emitted_all outs.
Proof.
  destruct (count_limited_source test_ext (interval_conf 2) epoch
              (interval_reader 2) eq_refl) as (_ & _ & Hcount).
  destruct Hcount as [_ Hreads]; [cbn; lia|].
  apply (Hreads [tick_env; tick_env] tick_env); [reflexivity|].
  repeat constructor; try (exists "1"; reflexivity); discriminate.
Defined.

(** C9. A read that emits hands over exactly the one part the mapping
    produced, so the batch is never empty; and a read whose mapping ran and
    produced nothing reports a timeout, neither a batch nor Closed. *)
Theorem read_never_empty b env b' out tr :
  ReadWithContext b env = (b', out, tr) ->
  (forall msg ack, out = Emitted msg ack ->
     (1 <= length msg)%nat /\ exists p, mapres env = MapPart p /\ msg = [p])
  /\ (mapres env = MapNil -> EvMapPart ∈ tr -> out = Failed ErrTimeout)
  /\ (mapres env = MapNil -> is_emitted out = false).
Proof.
  unfold ReadWithContext. intros H.
  repeat (destruct_scrutinee H; try discriminate).
  all: injection H as <- <- <-.
  all: repeat split; intros; try discriminate; try reflexivity.
  all: try match goal with
           | H : Emitted _ _ = Emitted _ _ |- _ => injection H as <- <-
           end.
  all: try (cbn; lia).
  all: try (eexists; split; reflexivity).
  all: try congruence.
  all: match goal with
       | H : _ ∈ _ |- _ => apply list_elem_of_In in H; cbn in H; intuition discriminate
       end.
Qed.

Lemma read_never_empty_witness :
  ((1 <= length ["1"])%nat /\ exists p, mapres tick_env = MapPart p /\ ["1"] = [p])
  /\ (ReadWithContext (interval_reader 2) empty_env).1.2 = Failed ErrTimeout.
Proof.
  split.
  - exact (proj1 (read_never_empty (interval_reader 2) tick_env _ _ _ eq_refl)
             ["1"] noop_ack eq_refl).
  - refine (proj1 (proj2 (read_never_empty (interval_reader 2) empty_env _ _ _ eq_refl))
              eq_refl _).
    cbn. apply list_elem_of_In. left. reflexivity.
Defined.

(** Every acknowledgment [ReadWithContext] hands out is the same closure. *)
Lemma read_ack_is_noop b env b' msg ack tr :
  ReadWithContext b env = (b', Emitted msg ack, tr) -> ack = noop_ack.
Proof.
  unfold ReadWithContext. intros H.
  repeat (destruct_scrutinee H; try discriminate).
  all: injection H as _ _ <- _; reflexivity.
Qed.

(** C3, as stated, fails: the second resolution of the batch read by a
    one-second reader returns nil like the first, no error tells them
    apart. *)
Lemma double_resolve_not_detected :
  ~ double_resolve_detected (interval_reader 2) tick_env.
Proof.
  intros H.
  specialize (H _ _ _ _ eq_refl None None).
  cbn in H. destruct H as [_ H]. apply H. reflexivity.
Qed.

(** C3, amended. The acknowledgment of an emitted batch has no effect at
    all, however often it is called, and every call, a second one included,
    returns nil. *)
Theorem ack_resolves_without_effect b env b' msg ack tr :
  ReadWithContext b env = (b', Emitted msg ack, tr) ->
  forall (s : Bloblang) (r : Response), ack s r = (s, None).
Proof.
  intros H s r. rewrite (read_ack_is_noop _ _ _ _ _ _ H). reflexivity.
Qed.

Lemma ack_resolves_without_effect_witness :
  let b := (ReadWithContext (interval_reader 2) tick_env).1.1 in
  noop_ack b None = (b, None)
  /\ noop_ack (noop_ack b None).1 (Some ErrTimeout) = (b, None).
Proof.
  pose proof (ack_resolves_without_effect (interval_reader 2) tick_env
                _ _ _ _ eq_refl) as H.
  split; [apply H|]. rewrite (H _ None). apply H.
Defined.

(** Once the count has reported Closed it stands at -1, the unlimited mark:
    a driver that read on regardless would be served again. *)
Example read_after_closed :
  (reads (interval_reader 1) [tick_env; tick_env; tick_env]).2
  = [(Emitted ["1"] noop_ack, [EvMapPart]);
     (Failed ErrTypeClosed, []);
     (Emitted ["1"] noop_ack, [EvSelect TickReceived; EvMapPart])].
Proof. reflexivity. Qed.

(** A read whose mapping yields nothing uses up a count as well. *)
Example empty_read_consumes_count :
  remaining (ReadWithContext (interval_reader 2) empty_env).1.1 = 1%Z
  /\ (ReadWithContext (interval_reader 2) empty_env).1.2 = Failed ErrTimeout.
Proof. split; reflexivity. Qed.

(** C4, on the code: a reader built with count 2 emits on its first read,
    has its second read cancelled while waiting for the tick, and reports
    Closed on the third: the cancelled read took the count from 1 to 0. *)
Theorem cancelled_read_consumes_count :
  let b1 := (ReadWithContext (interval_reader 2) tick_env).1.1 in
  let b2 := (ReadWithContext b1 cancelled_env).1.1 in
  newBloblang test_ext (interval_conf 2) epoch = Ret (inr (interval_reader 2))
  /\ remaining b1 = 1%Z
  /\ ReadWithContext b1 cancelled_env = (b2, Failed ErrTimeout, [EvSelect CtxDone])
  /\ remaining b2 = 0%Z
  /\ (reads (interval_reader 2) [tick_env; cancelled_env; tick_env]).2
     = [(Emitted ["1"] noop_ack, [EvMapPart]);
        (Failed ErrTimeout, [EvSelect CtxDone]);
        (Failed ErrTypeClosed, [])].
Proof. repeat split. Qed.

(** C7, on the code: the count goes down with every read, not with every
    emission. A reader built with count 2 emits on its first read, gets
    nothing from the mapping on its second, which takes the count from 1 to
    0 all the same, and reports Closed on the third: one batch, not two. *)
Theorem count_is_spent_without_emission :
  let b1 := (ReadWithContext (interval_reader 2) tick_env).1.1 in
  let b2 := (ReadWithContext b1 empty_env).1.1 in
  newBloblang test_ext (interval_conf 2) epoch = Ret (inr (interval_reader 2))
  /\ remaining b1 = 1%Z
  /\ ReadWithContext b1 empty_env
     = (b2, Failed ErrTimeout, [EvSelect TickReceived; EvMapPart])
  /\ remaining b2 = 0%Z
  /\ (reads (interval_reader 2) [tick_env; empty_env; tick_env]).2
     = [(Emitted ["1"] noop_ack, [EvMapPart]);
        (Failed ErrTimeout, [EvSelect TickReceived; EvMapPart]);
        (Failed ErrTypeClosed, [])]
  /\ length (List.filter (fun x : Outcome * list Event => is_emitted x.1)
               (reads (interval_reader 2) [tick_env; empty_env; tick_env]).2) = 1%nat.
Proof. repeat split. Qed.

(** C8. When a reader with a cron schedule emits, its ticker is re-armed
    with [schedule.Next(now) - now], [now] being the clock read in the
    schedule's location during that read; the ticker it had before plays no
    part in the new period. *)
Theorem cron_reschedules_from_now b env b' msg ack tr sched loc :
  schedule b = Some sched -> location b = Some loc ->
  ReadWithContext b env = (b', Emitted msg ack, tr) ->
  let now_ := In_ (now env) loc in
  exists t',
    timer b' = Some t'
    /\ period t' = Sub (Next sched now_) now_
    /\ last tr = Some (EvReset (Sub (Next sched now_) now_))
    /\ ((instant (Next sched now_) - instant now_ <= maxDuration)%Z ->
        period t' = (instant (Next sched now_) - instant now_)%Z)
    /\ (forall t0, timer (ReadWithContext (with_timer b (Some t0)) env).1.1 = Some t').
Proof.
  destruct b as [r f e tm sc lc]. cbn [schedule location].
  intros -> -> H.
  destruct f, tm as [t|];
    unfold ReadWithContext, Reset, getDurationTillNextSchedule in H;
    cbn -[Sub int32_wrap Z.leb Z.ltb] in H.
  all: repeat (destruct_scrutinee H; try discriminate;
               cbn -[Sub int32_wrap Z.leb Z.ltb] in H).
  all: injection H as <- <- <- <-.
  all: eexists; split; [reflexivity|]; split; [reflexivity|].
  all: split; [reflexivity|]; split.
  all: try (intros Hmax; cbn [period]; unfold Sub in *;
            repeat case_scrutinee; unfold minDuration, maxDuration in *; lia).
  all: intros t0; unfold ReadWithContext, Reset, getDurationTillNextSchedule.
  all: cbn -[Sub int32_wrap Z.leb Z.ltb].
  all: repeat (match goal with
               | H : ?x = _ |- context [?x] => rewrite H
               end; cbn -[Sub int32_wrap Z.leb Z.ltb]).
  all: reflexivity.
Qed.

Lemma cron_reschedules_from_now_witness :
  exists t',
    timer (ReadWithContext (cron_reader Second) late_env).1.1 = Some t'
    /\ period t' = 500000000%Z
    /\ forall t0,
         timer (ReadWithContext (with_timer (cron_reader Second) (Some t0)) late_env).1.1
         = Some t'.
Proof.
  destruct (cron_reschedules_from_now (cron_reader Second) late_env
              _ _ _ _ every_minute "UTC" eq_refl eq_refl eq_refl)
    as (t' & Ht & Hp & _ & _ & Hindep).
  exists t'. split; [exact Ht|]. split; [|exact Hindep].
  rewrite Hp. reflexivity.
Defined.

(** A read that is not the first one of a timer-driven reader either waits
    on the ticker or is turned away by the count before it gets there. *)
Lemma read_later b env :
  firstIsFree b = false -> is_Some (timer b) ->
  firstIsFree (ReadWithContext b env).1.1 = false
  /\ is_Some (timer (ReadWithContext b env).1.1)
  /\ (waited (ReadWithContext b env).2 = true
      \/ ((ReadWithContext b env).1.2 = Failed ErrTypeClosed
          /\ (ReadWithContext b env).2 = []
          /\ (0 <= remaining b)%Z
          /\ (int32_wrap (remaining b - 1) < 0)%Z)).
Proof.
  destruct b as [r f e tm sc lc]. cbn [firstIsFree timer].
  intros -> [t ->].
  unfold ReadWithContext, Reset. cbn -[int32_wrap Z.leb Z.ltb getDurationTillNextSchedule].
  repeat (case_scrutinee; cbn -[int32_wrap Z.leb Z.ltb getDurationTillNextSchedule]).
  all: repeat split; eauto.
  all: right; repeat split; lia.
Qed.

Lemma reads_later envs : forall b,
  firstIsFree b = false -> is_Some (timer b) ->
  forall o tr, (o, tr) ∈ (reads b envs).2 ->
    waited tr = true \/ (o = Failed ErrTypeClosed /\ tr = []).
Proof.
  induction envs as [|env rest IH]; intros b Hf Ht o tr Hin.
  - cbn in Hin. apply elem_of_nil in Hin. contradiction.
  - destruct (read_later b env Hf Ht) as (Hf' & Ht' & Hw).
    cbn [reads] in Hin.
    destruct (ReadWithContext b env) as [[b1 o1] tr1] eqn:Hread.
    cbn [fst snd] in Hf', Ht', Hw.
    assert (Hhere : waited tr1 = true \/ (o1 = Failed ErrTypeClosed /\ tr1 = []))
      by (destruct Hw as [|(? & ? & _)]; auto).
    destruct o1.
    + destruct (reads b1 rest) as [b2 outs] eqn:Hrest. cbn [snd] in Hin.
      apply elem_of_cons in Hin as [Heq|Hin]; [injection Heq as -> ->; assumption|].
      apply (IH b1 Hf' Ht'). rewrite Hrest. exact Hin.
    + destruct (reads b1 rest) as [b2 outs] eqn:Hrest. cbn [snd] in Hin.
      apply elem_of_cons in Hin as [Heq|Hin]; [injection Heq as -> ->; assumption|].
      apply (IH b1 Hf' Ht'). rewrite Hrest. exact Hin.
    + cbn [snd] in Hin. apply list_elem_of_singleton in Hin.
      injection Hin as -> ->. assumption.
Qed.

(** C6, as stated, fails: the second read of a one-second reader built with
    count 1 reports Closed at once, without waiting for the tick. *)
Lemma second_read_returns_without_waiting :
  newBloblang test_ext (interval_conf 1) epoch = Ret (inr (interval_reader 1))
  /\ ~ later_reads_block (interval_reader 1) [tick_env; tick_env].
Proof.
  split; [reflexivity|].
  intros H. specialize (H (Failed ErrTypeClosed) []).
  cbn in H. discriminate H. apply list_elem_of_singleton. reflexivity.
Qed.

(** C6, amended. The first read of a freshly built timer-driven reader does
    not wait for a tick, and emits the part at once when the mapping yields
    one; every later read waits for the tick or the cancellation, except the
    read that finds the count used up, which reports Closed at once. *)
Theorem first_is_free ext conf now0 b :
  newBloblang ext conf now0 = Ret (inr b) -> is_Some (timer b) ->
  forall env0 rest,
    waited (ReadWithContext b env0).2 = false
    /\ (forall p, mapres env0 = MapPart p ->
          (forall sched loc, schedule b = Some sched -> location b = Some loc ->
             (0 < getDurationTillNextSchedule sched loc (now env0))%Z) ->
          (ReadWithContext b env0).1.2 = Emitted [p] noop_ack)
    /\ (forall o tr, (o, tr) ∈ tail (reads b (env0 :: rest)).2 ->
          waited tr = true \/ (o = Failed ErrTypeClosed /\ tr = [])).
Proof.
  intros Hnew Ht env0 rest.
  destruct (newBloblang_state _ _ _ _ Hnew) as (Hf & Hrem & Hwf).
  assert (Hnz : remaining b <> 0%Z).
  { rewrite Hrem. destruct (Z.leb_spec (int32_wrap (Count conf)) 0); lia. }
  destruct Hwf as [Hcron Hrange].
  assert (Hcc : count_check b = (if (remaining b =? -1)%Z then b
                                 else with_remaining b (remaining b - 1), false)).
  { rewrite count_check_spec by assumption.
    destruct (Z.eqb_spec (remaining b) (-1)); [reflexivity|].
    destruct (Z.eqb_spec (remaining b) 0); [contradiction|reflexivity]. }
  assert (Hfirst : exists b1 o1 tr1,
            ReadWithContext b env0 = (b1, o1, tr1)
            /\ waited tr1 = false /\ firstIsFree b1 = false /\ is_Some (timer b1)
            /\ (forall p, mapres env0 = MapPart p ->
                  (forall sched loc, schedule b = Some sched -> location b = Some loc ->
                     (0 < getDurationTillNextSchedule sched loc (now env0))%Z) ->
                  o1 = Emitted [p] noop_ack)).
  { unfold ReadWithContext. fold (count_check b). rewrite Hcc.
    set (b1 := if (remaining b =? -1)%Z then b else with_remaining b (remaining b - 1)).
    assert (Hf1 : firstIsFree b1 = true)
      by (subst b1; destruct (_ =? _)%Z; assumption).
    assert (Ht1 : timer b1 = timer b)
      by (subst b1; destruct (_ =? _)%Z; reflexivity).
    assert (Hs1 : schedule b1 = schedule b)
      by (subst b1; destruct (_ =? _)%Z; reflexivity).
    assert (Hl1 : location b1 = location b)
      by (subst b1; destruct (_ =? _)%Z; reflexivity).
    clearbody b1. cbv beta iota zeta. rewrite Hf1. cbn [negb andb].
    cbn [schedule location timer with_firstIsFree]. rewrite Hs1, Hl1, Ht1.
    destruct Ht as [t Htm]. rewrite Htm. unfold Reset.
    repeat case_scrutinee; eexists _, _, _; (split; [reflexivity|]);
      cbn; rewrite ?Ht1, ?Htm; repeat split; eauto; intros p' Hp' Hd;
      try congruence; exfalso.
    - specialize (Hd _ _ eq_refl eq_refl).
      match goal with
      | H : (_ <=? 0)%Z = true |- _ => apply Z.leb_le in H; lia
      end.
    - destruct Hcron as [[l Hl] _]; [eauto|congruence]. }
  destruct Hfirst as (b1 & o1 & tr1 & Hread & Hw & Hf1 & Ht1 & Hemit).
  rewrite Hread. cbn [fst snd]. split; [assumption|]. split; [assumption|].
  intros o tr Hin. cbn [reads] in Hin. rewrite Hread in Hin.
  destruct o1.
  1,2: destruct (reads b1 rest) as [b2 outs] eqn:Hrest; cbn [snd tail] in Hin;
       apply (reads_later rest b1 Hf1 Ht1); rewrite Hrest; exact Hin.
  cbn in Hin. apply elem_of_nil in Hin. contradiction.
Qed.

Lemma first_is_free_witness :
  waited (ReadWithContext (interval_reader 2) tick_env).2 = false
  /\ (ReadWithContext (interval_reader 2) tick_env).1.2 = Emitted ["1"] noop_ack
  /\ (forall o tr,
        (o, tr) ∈ tail (reads (interval_reader 2) [tick_env; tick_env; tick_env]).2 ->
        waited tr = true \/ (o = Failed ErrTypeClosed /\ tr = [])).
Proof.
  destruct (first_is_free test_ext (interval_conf 2) epoch (interval_reader 2)
              eq_refl (ex_intro _ _ eq_refl) tick_env [tick_env; tick_env])
    as (Hw & Hemit & Hlater).
  split; [exact Hw|]. split; [|exact Hlater].
  apply (Hemit "1"); [reflexivity|discriminate].
Defined.

(** *** The constructor *)

Lemma nonempty_length (s : string) :
  (0 <? String.length s)%nat = true <-> s <> "".
Proof.
  destruct s; cbn; split; intros; congruence.
Qed.

(** X1. A reader that [newBloblang] returns was not given both an interval
    and a cron expression; its first read is free, its count is the
    unlimited mark or between 1 and 2^31-1; it has a ticker exactly when an
    interval or a cron expression was given, a schedule and a location
    exactly when a cron expression was; the ticker runs with a positive
    period; and its executor is the parsed mapping. *)
Theorem newBloblang_reader ext conf now0 b :
  newBloblang ext conf now0 = Ret (inr b) ->
  ~ (Interval conf <> "" /\ CronExpression conf <> "")
  /\ firstIsFree b = true
  /\ (remaining b = (-1)%Z \/ (1 <= remaining b < 2147483648)%Z)
  /\ (is_Some (timer b) <-> Interval conf <> "" \/ CronExpression conf <> "")
  /\ (is_Some (schedule b) <-> CronExpression conf <> "")
  /\ (is_Some (location b) <-> CronExpression conf <> "")
  /\ (forall t, timer b = Some t -> (0 < period t)%Z /\ stopped t = false)
  /\ NewMapping ext (Mapping conf) = inr (exec b).
Proof.
  intros H.
  destruct (newBloblang_state _ _ _ _ H) as (Hf & Hrem & _).
  assert (Hcount : remaining b = (-1)%Z \/ (1 <= remaining b < 2147483648)%Z).
  { rewrite Hrem. pose proof (Z.mod_pos_bound (Count conf + 2147483648) 4294967296 ltac:(lia)).
    destruct (Z.leb_spec (int32_wrap (Count conf)) 0); [left; reflexivity|right].
    unfold int32_wrap in *. lia. }
  unfold newBloblang, NewTicker in H. cbv zeta in H.
  rewrite <- !nonempty_length.
  destruct (0 <? String.length (Interval conf))%nat eqn:Hi,
           (0 <? String.length (CronExpression conf))%nat eqn:Hc;
    cbn [andb] in H; try discriminate.
  all: repeat (destruct_scrutinee H; try discriminate).
  all: injection H as <-; cbn [firstIsFree remaining timer schedule location exec] in *.
  all: repeat match goal with
              | H : Ret _ = Ret _ |- _ => injection H as H
              | H : inr _ = inr _ |- _ => injection H as H
              | H : (_, _) = (_, _) |- _ => injection H as ? ?
              end; subst.
  all: repeat split; try assumption; try reflexivity.
  all: try (intros [? ?]; discriminate).
  all: try (intros [? | ?]; discriminate).
  all: try (intros [? ?]; congruence).
  all: try (intros; discriminate).
  all: try (intros; eauto; fail).
  all: try (intros ? [= <-]; cbn; apply Z.leb_gt; assumption).
  all: try (intros; left; reflexivity).
  all: try (intros; right; reflexivity).
  all: match goal with
       | H : Some _ = Some ?t |- _ => injection H as <-; cbn
       end.
  all: first [reflexivity | apply Z.leb_gt; assumption].
Qed.

Lemma newBloblang_reader_witness :
  firstIsFree (interval_reader 2) = true
  /\ is_Some (timer (interval_reader 2))
  /\ ~ is_Some (schedule (interval_reader 2)).
Proof.
  destruct (newBloblang_reader test_ext (interval_conf 2) epoch (interval_reader 2) eq_refl)
    as (_ & Hf & _ & Ht & Hs & _).
  split; [exact Hf|]. split.
  - apply Ht. left. discriminate.
  - intros Hsome. apply Hs in Hsome. apply Hsome. reflexivity.
Defined.

Lemma int32_wrap_period (z k : Z) :
  int32_wrap (z + k * 4294967296) = int32_wrap z.
Proof.
  unfold int32_wrap.
  replace (z + k * 4294967296 + 2147483648)%Z
    with (z + 2147483648 + k * 4294967296)%Z by lia.
  rewrite Z.mod_add by lia. reflexivity.
Qed.

(** X2. The count is cut to 32 bits: two configurations that differ only
    by a multiple of 2^32 in their count give the same reader, and a count
    from 2^31 up to 2^32 gives an unlimited one. *)
Theorem count_is_cut_to_32_bits ext conf conf' now0 k :
  Mapping conf' = Mapping conf -> Interval conf' = Interval conf ->
  CronExpression conf' = CronExpression conf ->
  Count conf' = (Count conf + k * 4294967296)%Z ->
  newBloblang ext conf' now0 = newBloblang ext conf now0
  /\ ((2147483648 <= Count conf <= 4294967296)%Z ->
      forall b, newBloblang ext conf now0 = Ret (inr b) -> remaining b = (-1)%Z).
Proof.
  intros Hm Hi Hc Hk. split.
  - unfold newBloblang. rewrite Hm, Hi, Hc, Hk, int32_wrap_period. reflexivity.
  - intros Hrange b Hnew.
    destruct (newBloblang_state _ _ _ _ Hnew) as (_ & Hrem & _).
    rewrite Hrem.
    assert (Hw : (int32_wrap (Count conf) <= 0)%Z).
    { replace (Count conf) with ((Count conf - 4294967296) + 1 * 4294967296)%Z by lia.
      rewrite int32_wrap_period, int32_wrap_small by lia. lia. }
    destruct (Z.leb_spec (int32_wrap (Count conf)) 0); [reflexivity|lia].
Qed.

Lemma count_is_cut_to_32_bits_witness :
  newBloblang test_ext (interval_conf 4294967298) epoch
  = Ret (inr (interval_reader 2))
  /\ remaining (interval_reader (-1)) = (-1)%Z.
Proof.
  split.
  - rewrite (proj1 (count_is_cut_to_32_bits test_ext (interval_conf 2)
                      (interval_conf 4294967298) epoch 1
                      eq_refl eq_refl eq_refl eq_refl)).
    reflexivity.
  - exact (proj2 (count_is_cut_to_32_bits test_ext (interval_conf 3000000000)
                    (interval_conf 3000000000) epoch 0
                    eq_refl eq_refl eq_refl eq_refl)
             ltac:(cbn; lia) (interval_reader (-1)) eq_refl).
Defined.

(** *** The cron expression's time zone *)

Local Abbreviation space := (Ascii.ascii_of_nat 32).
Local Abbreviation equals := (Ascii.ascii_of_nat 61).

Lemma index_byte_lower c s : (-1 <= index_byte c s)%Z.
Proof.
  induction s as [|a r IH]; cbn; [lia|].
  destruct (Ascii.eqb a c); [lia|].
  destruct (Z.ltb_spec (index_byte c r) 0); lia.
Qed.

Lemma index_byte_cons_miss c a r :
  Ascii.eqb a c = false -> (0 <= index_byte c r)%Z ->
  index_byte c (String a r) = (index_byte c r + 1)%Z.
Proof.
  intros Hne Hr. cbn. rewrite Hne.
  destruct (Z.ltb_spec (index_byte c r) 0); [lia|reflexivity].
Qed.

Lemma index_byte_absent_cons c a r :
  index_byte c (String a r) = (-1)%Z ->
  Ascii.eqb a c = false /\ index_byte c r = (-1)%Z.
Proof.
  cbn. destruct (Ascii.eqb a c); [discriminate|].
  pose proof (index_byte_lower c r).
  destruct (Z.ltb_spec (index_byte c r) 0); intros; split; try reflexivity; lia.
Qed.

(** The first occurrence of a byte that the front part does not hold. *)
Lemma index_byte_app_hit c s1 s2 :
  index_byte c s1 = (-1)%Z ->
  index_byte c (s1 ++ String c s2) = Z.of_nat (String.length s1).
Proof.
  induction s1 as [|a r IH]; intros Habs.
  - change ("" ++ String c s2) with (String c s2).
    cbn [index_byte String.length]. rewrite Ascii.eqb_refl. reflexivity.
  - apply index_byte_absent_cons in Habs as [Hne Hr].
    change (String a r ++ String c s2) with (String a (r ++ String c s2)).
    rewrite index_byte_cons_miss; [|assumption|rewrite IH by assumption; lia].
    rewrite IH by assumption. cbn [String.length]. lia.
Qed.

Lemma length_app_string (s1 s2 : string) :
  String.length (s1 ++ s2) = (String.length s1 + String.length s2)%nat.
Proof.
  induction s1 as [|a r IH]; [reflexivity|].
  change (String a r ++ s2) with (String a (r ++ s2)).
  cbn [String.length]. rewrite IH. reflexivity.
Qed.

Lemma substring_app_front (s1 s2 : string) :
  String.substring 0 (String.length s1) (s1 ++ s2) = s1.
Proof.
  induction s1 as [|a r IH].
  - change ("" ++ s2) with s2. destruct s2; reflexivity.
  - change (String a r ++ s2) with (String a (r ++ s2)).
    cbn [String.length String.substring]. rewrite IH. reflexivity.
Qed.

(** An expression that names a zone, byte by byte. *)
Lemma zone_expr tz rest :
  "TZ=" ++ tz ++ " " ++ rest
  = String (Ascii.ascii_of_nat 84) (String (Ascii.ascii_of_nat 90)
      (String equals (tz ++ String space rest))).
Proof. reflexivity. Qed.

(** Where the zone sits in an expression that names one. *)
Lemma zone_slice tz rest :
  index_byte space tz = (-1)%Z ->
  let expr := "TZ=" ++ tz ++ " " ++ rest in
  index_byte equals expr = 2%Z
  /\ index_byte space expr = (3 + Z.of_nat (String.length tz))%Z
  /\ slice expr 3 (3 + Z.of_nat (String.length tz)) = Ret tz.
Proof.
  intros Habs expr.
  assert (Hsp : index_byte space (tz ++ String space rest) = Z.of_nat (String.length tz)).
  { apply (index_byte_app_hit space tz rest Habs). }
  subst expr. rewrite zone_expr.
  split; [reflexivity|]. split.
  - rewrite index_byte_cons_miss; [|reflexivity|].
    + rewrite index_byte_cons_miss; [|reflexivity|].
      * rewrite index_byte_cons_miss; [|reflexivity|]; rewrite Hsp; lia.
      * rewrite index_byte_cons_miss; [|reflexivity|]; rewrite Hsp; lia.
    + rewrite index_byte_cons_miss; [|reflexivity|].
      * rewrite index_byte_cons_miss; [|reflexivity|]; rewrite Hsp; lia.
      * rewrite index_byte_cons_miss; [|reflexivity|]; rewrite Hsp; lia.
  - unfold slice. cbn [String.length]. rewrite length_app_string. cbn [String.length].
    destruct (Z.leb_spec 0 3); [|lia].
    destruct (Z.leb_spec 3 (3 + Z.of_nat (String.length tz))); [|lia].
    destruct (Z.leb_spec (3 + Z.of_nat (String.length tz))
                (Z.of_nat (S (S (S (String.length tz + S (String.length rest)))))));
      [|lia].
    cbn [andb]. f_equal.
    replace (Z.to_nat (3 + Z.of_nat (String.length tz) - 3)) with (String.length tz) by lia.
    change (Z.to_nat 3) with 3%nat.
    cbn [String.substring]. apply substring_app_front.
Qed.

(** X3. An expression that does not start with TZ= is scheduled in UTC:
    the location loaded is "UTC" and the parser is given the expression
    with "TZ=UTC " put in front. *)
Theorem cron_defaults_to_utc ext expr :
  HasPrefix expr "TZ=" = false ->
  parseCronExpression ext expr
  = Ret match LoadLocation ext "UTC" with
        | inl e => inl e
        | inr loc =>
            match cronParse ext ("TZ=UTC " ++ expr) with
            | inl e => inl e
            | inr sched => inr (sched, loc)
            end
        end.
Proof.
  intros Hpre. unfold parseCronExpression. rewrite Hpre. cbn [negb].
  destruct (zone_slice "UTC" expr eq_refl) as (Heq & Hsp & Hsl).
  change ("TZ=" ++ "UTC" ++ " " ++ expr) with ("TZ=UTC " ++ expr) in *.
  rewrite Heq, Hsp. cbn [String.length] in *.
  change (2 + 1)%Z with 3%Z. rewrite Hsl.
  destruct (LoadLocation ext "UTC"); [reflexivity|].
  destruct (cronParse ext ("TZ=UTC " ++ expr)); reflexivity.
Qed.

Lemma cron_defaults_to_utc_witness :
  parseCronExpression test_ext "* * * * *" = Ret (inr (every_minute, "UTC")).
Proof.
  rewrite (cron_defaults_to_utc test_ext "* * * * *" eq_refl). reflexivity.
Defined.

(** X4. An expression of the form TZ=zone, a space, and the rest is
    scheduled in that zone (a zone name holds no space): the location
    loaded is the zone and the parser is given the whole expression. *)
Theorem cron_uses_named_zone ext tz rest :
  index_byte space tz = (-1)%Z ->
  let expr := "TZ=" ++ tz ++ " " ++ rest in
  parseCronExpression ext expr
  = Ret match LoadLocation ext tz with
        | inl e => inl e
        | inr loc =>
            match cronParse ext expr with
            | inl e => inl e
            | inr sched => inr (sched, loc)
            end
        end.
Proof.
  intros Habs expr. unfold parseCronExpression.
  assert (Hpre : HasPrefix expr "TZ=" = true).
  { unfold HasPrefix. apply String.prefix_correct.
    apply (substring_app_front "TZ=" (tz ++ " " ++ rest)). }
  rewrite Hpre. cbn [negb].
  destruct (zone_slice tz rest Habs) as (Heq & Hsp & Hsl).
  fold expr in Heq, Hsp, Hsl.
  rewrite Heq, Hsp. change (2 + 1)%Z with 3%Z. rewrite Hsl.
  destruct (LoadLocation ext tz); [reflexivity|].
  destruct (cronParse ext expr); reflexivity.
Qed.

Lemma cron_uses_named_zone_witness :
  parseCronExpression test_ext "TZ=Europe/Paris 0 9 * * *"
  = Ret (inr (every_minute, "Europe/Paris")).
Proof.
  exact (cron_uses_named_zone test_ext "Europe/Paris" "0 9 * * *" eq_refl).
Defined.

Lemma prefix_TZ expr :
  HasPrefix expr "TZ=" = true -> exists r, expr = "TZ=" ++ r.
Proof.
  unfold HasPrefix.
  destruct expr as [|a [|b [|c r]]]; cbn [String.prefix]; try discriminate;
    repeat match goal with
           | |- context [Ascii.ascii_dec ?x ?y] => destruct (Ascii.ascii_dec x y)
           end; try discriminate.
  intros _. subst. exists r. reflexivity.
Qed.

(** X5. An expression that starts with TZ= and holds no space makes
    [parseCronExpression] panic on the slice, and with it the constructor
    given that expression and no interval. *)
Theorem cron_zone_without_space_panics ext expr :
  HasPrefix expr "TZ=" = true -> index_byte space expr = (-1)%Z ->
  parseCronExpression ext expr = Panic "slice bounds out of range"
  /\ forall conf now0,
       Interval conf = "" -> CronExpression conf = expr ->
       newBloblang ext conf now0 = Panic "slice bounds out of range".
Proof.
  intros Hpre Habs.
  assert (Hparse : parseCronExpression ext expr = Panic "slice bounds out of range").
  { unfold parseCronExpression. rewrite Hpre. cbn [negb].
    rewrite Habs.
    destruct (prefix_TZ expr Hpre) as [r ->].
    change (index_byte equals ("TZ=" ++ r)) with 2%Z.
    reflexivity. }
  split; [exact Hparse|].
  intros conf now0 Hi Hc. unfold newBloblang. rewrite Hi, Hc.
  destruct (prefix_TZ expr Hpre) as [r Hr].
  assert (Hlen : (0 <? String.length expr)%nat = true) by (rewrite Hr; reflexivity).
  rewrite Hlen, Hparse. reflexivity.
Qed.

Lemma cron_zone_without_space_panics_witness :
  parseCronExpression test_ext "TZ=UTC" = Panic "slice bounds out of range".
Proof.
  exact (proj1 (cron_zone_without_space_panics test_ext "TZ=UTC" eq_refl eq_refl)).
Defined.

(** *** What reads keep *)

(** One read keeps the executor, the schedule and the location, has a
    ticker afterwards exactly when it had one before, and keeps a positive
    period positive. *)
Lemma read_frame b env :
  exec (ReadWithContext b env).1.1 = exec b
  /\ schedule (ReadWithContext b env).1.1 = schedule b
  /\ location (ReadWithContext b env).1.1 = location b
  /\ (timer (ReadWithContext b env).1.1 = None <-> timer b = None)
  /\ ((forall t, timer b = Some t -> (0 < period t)%Z) ->
      forall t', timer (ReadWithContext b env).1.1 = Some t' -> (0 < period t')%Z).
Proof.
  destruct b as [r f e tm sc lc].
  unfold ReadWithContext, Reset.
  cbn -[int32_wrap Z.leb Z.ltb getDurationTillNextSchedule].
  repeat (case_scrutinee; cbn -[int32_wrap Z.leb Z.ltb getDurationTillNextSchedule]).
  all: repeat split; intros; try congruence; eauto.
  all: match goal with
       | H : Some _ = Some ?t |- _ => injection H as <-; cbn
       end.
  all: apply Z.leb_gt; assumption.
Qed.

(** X6. However many reads are made and whatever happens in them, the
    reader keeps its executor, its schedule and its location, it has a
    ticker afterwards exactly when it had one before, and a ticker with a
    positive period keeps a positive period. *)
Theorem reads_keep_configuration envs : forall b,
  exec (reads b envs).1 = exec b
  /\ schedule (reads b envs).1 = schedule b
  /\ location (reads b envs).1 = location b
  /\ (timer (reads b envs).1 = None <-> timer b = None)
  /\ ((forall t, timer b = Some t -> (0 < period t)%Z) ->
      forall t', timer (reads b envs).1 = Some t' -> (0 < period t')%Z).
Proof.
  induction envs as [|env rest IH]; intros b.
  - cbn. repeat split; auto.
  - cbn [reads].
    pose proof (read_frame b env) as (He & Hs & Hl & Ht & Hp).
    destruct (ReadWithContext b env) as [[b1 o1] tr1]. cbn [fst snd] in *.
    destruct o1.
    1,2: specialize (IH b1); destruct (reads b1 rest) as [b2 outs];
         cbn [fst] in *; destruct IH as (He' & Hs' & Hl' & Ht' & Hp');
         rewrite He', Hs', Hl', Ht', He, Hs, Hl, Ht;
         repeat split; auto.
    cbn [fst]. repeat split; auto; apply Ht.
Qed.

Lemma reads_keep_configuration_witness :
  exists t',
    timer (reads (cron_reader Second) [late_env; tick_env]).1 = Some t'
    /\ (0 < period t')%Z
    /\ schedule (reads (cron_reader Second) [late_env; tick_env]).1 = Some every_minute.
Proof.
  destruct (reads_keep_configuration [late_env; tick_env] (cron_reader Second))
    as (_ & Hs & _ & _ & Hp).
  eexists. split; [reflexivity|]. split; [|exact Hs].
  apply Hp; [|reflexivity]. intros t [= <-]. reflexivity.
Defined.

(** X7. A read that does not emit leaves the ticker as it was, and so does
    every read of a reader without a cron schedule: the ticker is re-armed
    only by an emission under a cron schedule. *)
Theorem ticker_is_reset_only_on_cron_emission b env :
  is_emitted (ReadWithContext b env).1.2 = false \/ schedule b = None ->
  timer (ReadWithContext b env).1.1 = timer b.
Proof.
  destruct b as [r f e tm sc lc].
  unfold ReadWithContext, Reset.
  cbn -[int32_wrap Z.leb Z.ltb getDurationTillNextSchedule].
  repeat (case_scrutinee; cbn -[int32_wrap Z.leb Z.ltb getDurationTillNextSchedule]).
  all: intros [H|H]; try reflexivity; discriminate.
Qed.

Lemma ticker_is_reset_only_on_cron_emission_witness :
  timer (ReadWithContext (cron_reader Second)
           {| sel := TickReceived; mapres := MapNil; now := epoch |}).1.1
  = Some {| period := Second; stopped := false |}.
Proof.
  apply (ticker_is_reset_only_on_cron_emission (cron_reader Second)).
  left. reflexivity.
Defined.

(** X8. A reader built with neither an interval nor a cron expression
    never waits: none of its reads blocks on a ticker. *)
Theorem no_interval_never_waits ext conf now0 b :
  newBloblang ext conf now0 = Ret (inr b) ->
  Interval conf = "" -> CronExpression conf = "" ->
  forall envs o tr, (o, tr) ∈ (reads b envs).2 -> waited tr = false.
Proof.
  intros Hnew Hi Hc.
  assert (Ht : timer b = None).
  { unfold newBloblang in Hnew. rewrite Hi, Hc in Hnew. cbn in Hnew.
    destruct (NewMapping ext (Mapping conf)); [discriminate|].
    injection Hnew as <-. reflexivity. }
  clear Hnew Hi Hc. intros envs. revert b Ht.
  induction envs as [|env rest IH]; intros b Ht o tr Hin.
  - cbn in Hin. apply elem_of_nil in Hin. contradiction.
  - assert (Hw : waited (ReadWithContext b env).2 = false).
    { destruct b as [r f e tm sc lc]. cbn in Ht. subst tm.
      unfold ReadWithContext.
      cbn -[int32_wrap Z.leb Z.ltb getDurationTillNextSchedule].
      repeat (case_scrutinee;
              cbn -[int32_wrap Z.leb Z.ltb getDurationTillNextSchedule]);
        try reflexivity; destruct f; discriminate. }
    pose proof (read_frame b env) as (_ & _ & _ & [_ Ht'] & _).
    cbn [reads] in Hin.
    destruct (ReadWithContext b env) as [[b1 o1] tr1]. cbn [fst snd] in *.
    destruct o1.
    1,2: destruct (reads b1 rest) as [b2 outs] eqn:Hrest; cbn [snd] in Hin;
         apply elem_of_cons in Hin as [[= -> ->]|Hin]; [exact Hw|];
         eapply (IH b1); [apply Ht'; exact Ht | rewrite Hrest; exact Hin].
    cbn [snd] in Hin. apply list_elem_of_singleton in Hin as [= -> ->]. exact Hw.
Qed.

Lemma no_interval_never_waits_witness :
  Forall (fun x : Outcome * list Event => waited x.2 = false)
    (reads eager_reader [tick_env; tick_env; cancelled_env]).2.
Proof.
  apply Forall_forall. intros [o tr] Hin.
  exact (no_interval_never_waits test_ext eager_conf epoch eager_reader
           eq_refl eq_refl eq_refl _ o tr Hin).
Defined.

(** X9. The count bounds the reads, not the emissions: a reader whose count
    stands at n has it at zero after n reads, whatever these reads did
    (emitted, were cancelled, failed in the mapping or got nothing from
    it), and the read after them reports Closed without waiting and without
    running the mapping. *)
Theorem count_bounds_reads envs : forall b env,
  (remaining b < 2147483648)%Z ->
  remaining b = Z.of_nat (length envs) ->
  length (reads b envs).2 = length envs ->
  remaining (reads b envs).1 = 0%Z
  /\ ReadWithContext (reads b envs).1 env
     = (with_remaining (reads b envs).1 (-1), Failed ErrTypeClosed, []).
Proof.
  induction envs as [|e rest IH]; intros b env Hlt Hrem Hlen.
  - cbn in *. split; [assumption|]. apply read_exhausted. assumption.
  - cbn [length] in Hrem.
    pose proof (read_remaining b e ltac:(lia)) as Hr.
    destruct (Z.eqb_spec (remaining b) (-1)) as [|_]; [lia|].
    cbn [reads] in *.
    destruct (ReadWithContext b e) as [[b1 o1] tr1]. cbn [fst snd] in *.
    destruct o1.
    1,2: specialize (IH b1 env ltac:(lia) ltac:(lia));
         destruct (reads b1 rest) as [b2 outs]; cbn [fst snd length] in *;
         apply IH; lia.
    cbn [fst snd length] in *. destruct rest; [|discriminate].
    cbn [length] in Hrem.
    assert (H0 : remaining b1 = 0%Z) by lia.
    split; [assumption|]. apply read_exhausted. assumption.
Qed.

Lemma count_bounds_reads_witness :
  ReadWithContext
    (reads (interval_reader 3) [failing_env; cancelled_env; empty_env]).1 tick_env
  = (with_remaining
       (reads (interval_reader 3) [failing_env; cancelled_env; empty_env]).1 (-1),
     Failed ErrTypeClosed, []).
Proof.
  apply (count_bounds_reads [failing_env; cancelled_env; empty_env]
           (interval_reader 3) tick_env); [cbn; lia|reflexivity|reflexivity].
Defined.

(** X10. Closed is not final: the read that finds the count at zero reports
    Closed and leaves the count at -1, the unlimited mark, so every good
    read made after it emits again. *)
Theorem closed_is_not_final b env envs :
  well_formed b -> remaining b = 0%Z -> Forall (good_env b) envs ->
  exists b' outs,
    reads b (env :: envs) = (b', (Failed ErrTypeClosed, []) :: outs)
    /\ length outs = length envs /\ emitted_all outs
    /\ remaining b' = (-1)%Z.
Proof.
  intros Hwf H0 Hgood. cbn [reads]. rewrite (read_exhausted b env H0).
  destruct (reads_unlimited envs (with_remaining b (-1)))
    as (b' & outs & Hreads & Hlen & Hall & Hrem).
  - destruct Hwf as [Hc _]. split; [exact Hc|cbn; lia].
  - reflexivity.
  - eapply Forall_impl; [exact Hgood|]. intros e. cbn.
    apply good_env_same; reflexivity.
  - exists b', outs. rewrite Hreads. repeat split; assumption.
Qed.

Lemma closed_is_not_final_witness :
  exists b' outs,
    reads (interval_reader 0) [tick_env; tick_env; tick_env]
    = (b', (Failed ErrTypeClosed, []) :: outs)
    /\ length outs = 2%nat /\ emitted_all outs /\ remaining b' = (-1)%Z.
Proof.
  apply (closed_is_not_final (interval_reader 0) tick_env [tick_env; tick_env]).
  - split; [intros [? ?]; discriminate|cbn; lia].
  - reflexivity.
  - repeat constructor; try (exists "1"; reflexivity); discriminate.
Defined.

(** X20. A schedule whose next instant is not after the clock reading
    brings the program down: the constructor panics when it arms the first
    ticker, and a read that has its part in hand panics when it re-arms
    the ticker, so the part is lost. *)
Theorem schedule_without_future_panics sched loc :
  (forall ext conf now0,
     Interval conf = "" -> CronExpression conf <> "" ->
     parseCronExpression ext (CronExpression conf) = Ret (inr (sched, loc)) ->
     (getDurationTillNextSchedule sched loc now0 <= 0)%Z ->
     newBloblang ext conf now0 = Panic "non-positive interval for NewTicker")
  /\ (forall b env t p,
        schedule b = Some sched -> location b = Some loc -> timer b = Some t ->
        remaining b = (-1)%Z ->
        firstIsFree b = true \/ sel env = TickReceived ->
        mapres env = MapPart p ->
        (getDurationTillNextSchedule sched loc (now env) <= 0)%Z ->
        (ReadWithContext b env).1.2
        = Panicked "non-positive interval for Ticker.Reset").
Proof.
  split.
  - intros ext conf now0 Hi Hc Hparse Hd.
    unfold newBloblang. rewrite Hi.
    apply nonempty_length in Hc. rewrite Hc, Hparse.
    cbn [String.length Nat.ltb Nat.leb andb].
    unfold NewTicker. apply Z.leb_le in Hd. rewrite Hd. reflexivity.
  - intros b env t p Hs Hl Ht Hrem Hfree Hp Hd.
    destruct b as [r f e tm sc lc]. cbn in Hs, Hl, Ht, Hrem, Hfree. subst.
    unfold ReadWithContext, Reset. apply Z.leb_le in Hd.
    cbn [remaining]. change (0 <=? -1)%Z with false.
    cbn -[getDurationTillNextSchedule Z.leb]. rewrite Hp.
    destruct Hfree as [-> | ->]; [|destruct f];
      cbn -[getDurationTillNextSchedule Z.leb]; rewrite Hd; reflexivity.
Qed.

Lemma schedule_without_future_panics_witness :
  newBloblang never_ext (cron_conf "0 0 30 2 *") epoch
  = Panic "non-positive interval for NewTicker".
Proof.
  refine (proj1 (schedule_without_future_panics never_again "UTC")
            never_ext (cron_conf "0 0 30 2 *") epoch eq_refl _ _ _).
  - discriminate.
  - reflexivity.
  - vm_compute. discriminate.
Defined.

End InputSpec.

(** ** The SFTP writer's connection set-up *)
Module SFTPWriterSpec.
Import SFTPWriter.

Lemma dials_app evs1 evs2 : dials (evs1 ++ evs2) = (dials evs1 + dials evs2)%nat.
Proof.
  induction evs1 as [|e evs1 IH]; [reflexivity|].
  destruct e; cbn; rewrite IH; reflexivity.
Qed.

Lemma sleeps_app evs1 evs2 : sleeps (evs1 ++ evs2) = (sleeps evs1 ++ sleeps evs2)%list.
Proof.
  induction evs1 as [|e evs1 IH]; [reflexivity|].
  destruct e; cbn; rewrite IH; reflexivity.
Qed.

Example dial_third_time_lucky :
  initSFTPConnection test_sftp third_time_lucky 10
  = Some ({| conf := conf test_sftp; client := Some {| client_addr := "localhost:22" |} |},
          None,
          [EvDial "localhost:22"; EvCounterIncr "connection_errors" 1;
           EvLogError "Failed to dial: connection refused"; EvSleep 5000000000%Z;
           EvDial "localhost:22"; EvCounterIncr "connection_errors" 1;
           EvLogError "Failed to dial: connection refused"; EvSleep 5000000000%Z;
           EvDial "localhost:22"; EvNewClient]).
Proof. reflexivity. Qed.

(** With [m] attempts left before the tenth and every dial failing, the loop
    makes exactly [m] more attempts, pauses between them and returns. *)
Lemma dial_loop_all_fail net addr :
  (forall n, (1 <= n <= 10)%Z -> is_Some (dial net n)) ->
  forall m k, (1 <= m <= 10)%nat -> k = (10 - Z.of_nat m)%Z ->
  exists evs,
    (forall fuel, (m <= fuel)%nat ->
       dial_loop net addr fuel k
       = Some (Returned "failed to connect to SFTP server", evs))
    /\ (forall fuel, (fuel < m)%nat -> dial_loop net addr fuel k = None)
    /\ dials evs = m
    /\ sleeps evs = replicate (m - 1) (5 * Second)%Z.
Proof.
  intros Hfail. induction m as [|m IH]; intros k Hm Hk; [lia|].
  destruct (Hfail (k + 1)%Z ltac:(lia)) as [err Herr].
  destruct (Nat.eq_dec m 0) as [->|Hnz].
  - (* the tenth attempt *)
    eexists. split; [|split; [|split]].
    + intros [|fuel] Hfuel; [lia|]. cbn [dial_loop]. rewrite Herr.
      destruct (Z.leb_spec 10 (k + 1)); [reflexivity|lia].
    + intros fuel Hfuel. replace fuel with 0%nat by lia. reflexivity.
    + reflexivity.
    + reflexivity.
  - destruct (IH (k + 1)%Z ltac:(lia) ltac:(lia)) as (evs & Hrun & Hshort & Hd & Hs).
    eexists. split; [|split; [|split]].
    + intros [|fuel] Hfuel; [lia|]. cbn [dial_loop]. rewrite Herr.
      destruct (Z.leb_spec 10 (k + 1)); [lia|].
      rewrite Hrun by lia. reflexivity.
    + intros [|fuel] Hfuel; [reflexivity|]. cbn [dial_loop]. rewrite Herr.
      destruct (Z.leb_spec 10 (k + 1)); [lia|].
      rewrite Hshort by lia. reflexivity.
    + rewrite dials_app. cbn. rewrite Hd. reflexivity.
    + rewrite sleeps_app. cbn. rewrite Hs.
      destruct m; [lia|]. cbn. rewrite Nat.sub_0_r. reflexivity.
Qed.

(** C5. When every dial fails, the connection set-up makes exactly ten
    attempts, sleeps five seconds between one attempt and the next (nine
    pauses), and then returns the error "failed to connect to SFTP server"
    without a client; it is not done before the tenth attempt and it does
    not go on after it. *)
Theorem connect_gives_up_after_ten s net :
  (forall n, (1 <= n <= 10)%Z -> is_Some (dial net n)) ->
  exists evs,
    (forall fuel, (10 <= fuel)%nat ->
       initSFTPConnection s net fuel
       = Some (s, Some "failed to connect to SFTP server", evs))
    /\ (forall fuel, (fuel < 10)%nat -> initSFTPConnection s net fuel = None)
    /\ dials evs = 10%nat
    /\ sleeps evs = replicate 9 (5 * Second)%Z.
Proof.
  intros Hfail.
  destruct (dial_loop_all_fail net
              (Server (conf s) +:+ ":" +:+ pretty (Port (conf s)))
              Hfail 10 0%Z ltac:(lia) eq_refl)
    as (evs & Hrun & Hshort & Hd & Hs).
  exists evs. split; [|split; [|split]]; try assumption.
  - intros fuel Hfuel. unfold initSFTPConnection. rewrite Hrun by assumption.
    reflexivity.
  - intros fuel Hfuel. unfold initSFTPConnection. rewrite Hshort by assumption.
    reflexivity.
Qed.

Lemma connect_gives_up_after_ten_witness :
  exists evs,
    initSFTPConnection test_sftp unreachable 10
    = Some (test_sftp, Some "failed to connect to SFTP server", evs)
    /\ initSFTPConnection test_sftp unreachable 9 = None
    /\ dials evs = 10%nat
    /\ sleeps evs = replicate 9 5000000000%Z.
Proof.
  destruct (connect_gives_up_after_ten test_sftp unreachable)
    as (evs & Hrun & Hshort & Hd & Hs).
  - intros n _. exists "connection refused". reflexivity.
  - exists evs. split; [apply Hrun; lia|]. split; [apply Hshort; lia|].
    split; assumption.
Defined.

(** *** Any network *)

Lemma dial_loop_bounded net addr : forall m k,
  (1 <= m <= 10)%nat -> k = (10 - Z.of_nat m)%Z ->
  exists exit evs,
    (forall fuel, (m <= fuel)%nat -> dial_loop net addr fuel k = Some (exit, evs))
    /\ (1 <= dials evs <= m)%nat
    /\ sleeps evs = replicate (dials evs - 1) (5 * Second)%Z.
Proof.
  induction m as [|m IH]; intros k Hm Hk; [lia|].
  destruct (dial net (k + 1)%Z) as [err|] eqn:Hdial.
  - destruct (Nat.eq_dec m 0) as [->|Hnz].
    + eexists _, _. split; [|split].
      * intros [|fuel] Hfuel; [lia|]. cbn [dial_loop]. rewrite Hdial.
        destruct (Z.leb_spec 10 (k + 1)); [reflexivity|lia].
      * cbn. lia.
      * reflexivity.
    + destruct (IH (k + 1)%Z ltac:(lia) ltac:(lia)) as (exit & evs & Hrun & Hd & Hs).
      eexists _, _. split; [|split].
      * intros [|fuel] Hfuel; [lia|]. cbn [dial_loop]. rewrite Hdial.
        destruct (Z.leb_spec 10 (k + 1)); [lia|].
        rewrite Hrun by lia. reflexivity.
      * rewrite dials_app. cbn. lia.
      * rewrite sleeps_app, dials_app. cbn. rewrite Hs.
        destruct (dials evs); [lia|]. cbn. rewrite Nat.sub_0_r. reflexivity.
  - eexists _, _. split; [|split].
    + intros [|fuel] Hfuel; [lia|]. cbn [dial_loop]. rewrite Hdial. reflexivity.
    + cbn. lia.
    + reflexivity.
Qed.

(** X11. Whatever the network does, the connection set-up is over within
    ten rounds of its loop: it dials at least once and at most ten times,
    sleeps five seconds between one dial and the next and at no other time,
    and, started without a client, ends with a client exactly when it
    returns no error. *)
Theorem connect_dials_at_most_ten_times s net :
  exists s' err evs,
    (forall fuel, (10 <= fuel)%nat ->
       initSFTPConnection s net fuel = Some (s', err, evs))
    /\ (1 <= dials evs <= 10)%nat
    /\ sleeps evs = replicate (dials evs - 1) (5 * Second)%Z
    /\ (client s = None -> (err = None <-> is_Some (client s'))).
Proof.
  destruct (dial_loop_bounded net
              (Server (conf s) +:+ ":" +:+ pretty (Port (conf s)))
              10 0%Z ltac:(lia) eq_refl)
    as (exit & evs & Hrun & Hd & Hs).
  unfold initSFTPConnection.
  destruct exit as [|err].
  - destruct (newClient net) as [cerr|] eqn:Hnc.
    + eexists _, _, _. split; [|split; [|split]].
      * intros fuel Hfuel. rewrite (Hrun fuel Hfuel). reflexivity.
      * rewrite dials_app. cbn. lia.
      * rewrite sleeps_app, dials_app. cbn.
        rewrite app_nil_r, Nat.add_0_r. exact Hs.
      * intros _. cbn. split; [discriminate|]. intros [? ?]. discriminate.
    + eexists _, _, _. split; [|split; [|split]].
      * intros fuel Hfuel. rewrite (Hrun fuel Hfuel). reflexivity.
      * rewrite dials_app. cbn. lia.
      * rewrite sleeps_app, dials_app. cbn.
        rewrite app_nil_r, Nat.add_0_r. exact Hs.
      * intros _. cbn. split; eauto.
  - eexists _, _, _. split; [|split; [|split]].
    + intros fuel Hfuel. rewrite (Hrun fuel Hfuel). reflexivity.
    + exact Hd.
    + exact Hs.
    + intros ->. split; [discriminate|]. intros [? ?]. discriminate.
Qed.

Lemma connect_dials_at_most_ten_times_witness :
  exists s' err evs,
    initSFTPConnection test_sftp flaky 10 = Some (s', err, evs)
    /\ (1 <= dials evs <= 10)%nat
    /\ (err = None <-> is_Some (client s')).
Proof.
  destruct (connect_dials_at_most_ten_times test_sftp flaky)
    as (s' & err & evs & Hrun & Hd & _ & Hc).
  exists s', err, evs. split; [apply Hrun; lia|]. split; [exact Hd|].
  apply Hc. reflexivity.
Defined.

Lemma dial_loop_first_answer net addr k :
  (1 <= k <= 10)%Z ->
  (forall n, (1 <= n < k)%Z -> is_Some (dial net n)) ->
  dial net k = None ->
  forall m j, j = (k - Z.of_nat m)%Z -> (0 <= j)%Z -> (1 <= m)%nat ->
  exists evs,
    (forall fuel, (m <= fuel)%nat -> dial_loop net addr fuel j = Some (Dialed, evs))
    /\ (forall fuel, (fuel < m)%nat -> dial_loop net addr fuel j = None)
    /\ dials evs = m
    /\ sleeps evs = replicate (m - 1) (5 * Second)%Z.
Proof.
  intros Hk Hfail Hok. induction m as [|m IH]; intros j Hj Hj0 Hm; [lia|].
  destruct (Nat.eq_dec m 0) as [->|Hnz].
  - assert (j + 1 = k)%Z as Hjk by lia.
    eexists. split; [|split; [|split]].
    + intros [|fuel] Hfuel; [lia|]. cbn [dial_loop]. rewrite Hjk, Hok. reflexivity.
    + intros fuel Hfuel. replace fuel with 0%nat by lia. reflexivity.
    + reflexivity.
    + reflexivity.
  - destruct (Hfail (j + 1)%Z ltac:(lia)) as [err Herr].
    destruct (IH (j + 1)%Z ltac:(lia) ltac:(lia) ltac:(lia))
      as (evs & Hrun & Hshort & Hd & Hs).
    eexists. split; [|split; [|split]].
    + intros [|fuel] Hfuel; [lia|]. cbn [dial_loop]. rewrite Herr.
      destruct (Z.leb_spec 10 (j + 1)); [lia|].
      rewrite Hrun by lia. reflexivity.
    + intros [|fuel] Hfuel; [reflexivity|]. cbn [dial_loop]. rewrite Herr.
      destruct (Z.leb_spec 10 (j + 1)); [lia|].
      rewrite Hshort by lia. reflexivity.
    + rewrite dials_app. cbn. rewrite Hd. reflexivity.
    + rewrite sleeps_app. cbn. rewrite Hs.
      destruct m; [lia|]. cbn. rewrite Nat.sub_0_r. reflexivity.
Qed.

(** X12. When the k-th dial is the first to get through (k at most ten),
    the set-up makes exactly k dials with k-1 pauses of five seconds, then
    creates the client once; what it returns is the outcome of creating the
    client, and the writer holds a client exactly when that went well. *)
Theorem connect_at_first_answer s net k :
  (1 <= k <= 10)%Z ->
  (forall n, (1 <= n < k)%Z -> is_Some (dial net n)) ->
  dial net k = None ->
  exists s' evs,
    (forall fuel, (Z.to_nat k <= fuel)%nat ->
       initSFTPConnection s net fuel = Some (s', newClient net, evs))
    /\ (forall fuel, (fuel < Z.to_nat k)%nat -> initSFTPConnection s net fuel = None)
    /\ dials evs = Z.to_nat k
    /\ sleeps evs = replicate (Z.to_nat k - 1) (5 * Second)%Z
    /\ conf s' = conf s
    /\ (is_Some (client s') <-> newClient net = None).
Proof.
  intros Hk Hfail Hok.
  destruct (dial_loop_first_answer net
              (Server (conf s) +:+ ":" +:+ pretty (Port (conf s)))
              k Hk Hfail Hok (Z.to_nat k) 0%Z ltac:(lia) ltac:(lia) ltac:(lia))
    as (evs & Hrun & Hshort & Hd & Hs).
  unfold initSFTPConnection.
  destruct (newClient net) as [cerr|] eqn:Hnc.
  - eexists _, _. split; [|split; [|split; [|split; [|split]]]].
    + intros fuel Hfuel. rewrite (Hrun fuel Hfuel). reflexivity.
    + intros fuel Hfuel. rewrite (Hshort fuel Hfuel). reflexivity.
    + rewrite dials_app. cbn. lia.
    + rewrite sleeps_app. cbn. rewrite app_nil_r. exact Hs.
    + reflexivity.
    + cbn. split; [intros [? ?]; discriminate|discriminate].
  - eexists _, _. split; [|split; [|split; [|split; [|split]]]].
    + intros fuel Hfuel. rewrite (Hrun fuel Hfuel). reflexivity.
    + intros fuel Hfuel. rewrite (Hshort fuel Hfuel). reflexivity.
    + rewrite dials_app. cbn. lia.
    + rewrite sleeps_app. cbn. rewrite app_nil_r. exact Hs.
    + reflexivity.
    + cbn. split; eauto.
Qed.

Lemma connect_at_first_answer_witness :
  exists s' evs,
    initSFTPConnection test_sftp third_time_lucky 3 = Some (s', None, evs)
    /\ initSFTPConnection test_sftp third_time_lucky 2 = None
    /\ dials evs = 3%nat
    /\ sleeps evs = [5000000000; 5000000000]%Z
    /\ is_Some (client s').
Proof.
  destruct (connect_at_first_answer test_sftp third_time_lucky 3)
    as (s' & evs & Hrun & Hshort & Hd & Hs & _ & Hc).
  - lia.
  - intros n Hn. unfold third_time_lucky. cbn.
    destruct (Z.ltb_spec n 3); [eauto|lia].
  - reflexivity.
  - exists s', evs. split; [apply Hrun; cbn; lia|]. split; [apply Hshort; cbn; lia|].
    split; [exact Hd|]. split; [exact Hs|]. apply Hc. reflexivity.
Defined.

(** *** Writing a part *)

Ltac case_scrutinee_hyp H :=
  match type of H with
  | context [match ?x with _ => _ end] =>
      lazymatch x with
      | context [match _ with _ => _ end] => fail
      | _ => destruct x eqn:?
      end
  end.

Ltac list_membership :=
  repeat match goal with
         | H : _ ∈ _ |- _ => apply list_elem_of_In in H; cbn in H
         | |- _ ∈ _ => apply list_elem_of_In; cbn
         | |- _ ∉ _ => let H := fresh in intros H
         end.

(** X13. Writing a part creates the file only when [Stat] on its path
    failed and the directories could be made, and opens it (to append,
    read-write) only when [Stat] succeeded; it reports success exactly when
    the part's bytes were written to that path; and it never closes the
    file it opened. *)
Theorem write_part_appends_or_creates s filepath srv msg i p res evs :
  write_part s filepath srv msg i p = Ret (res, evs) ->
  (forall path, EvCreate path ∈ evs ->
     path = filepath i msg /\ is_Some (Stat srv path)
     /\ MkdirAll srv (Dir srv path) = None)
  /\ (forall path flags, EvOpenFile path flags ∈ evs ->
        path = filepath i msg /\ Stat srv path = None /\ flags = 1026%Z)
  /\ (res = None <->
      EvFileWrite (filepath i msg) p ∈ evs
      /\ FileWrite srv (filepath i msg) p = None)
  /\ (forall path, EvFileClose path ∉ evs).
Proof.
  unfold write_part. intros H. cbv zeta in H.
  repeat (case_scrutinee_hyp H; try discriminate).
  all: repeat match goal with
              | H : (_, _) = (_, _) |- _ => injection H as <- <-
              end.
  all: injection H as <- <-.
  all: repeat split; intros; list_membership.
  all: try discriminate; try reflexivity; try tauto; try congruence.
  all: repeat match goal with
              | H : _ ∈ _ |- _ => apply list_elem_of_In in H; cbn in H
              | H : _ \/ _ |- _ => destruct H
              | H : _ /\ _ |- _ => destruct H
              | H : False |- _ => contradiction
              | H : EvCreate _ = EvCreate _ |- _ => injection H as <-
              | H : EvOpenFile _ _ = EvOpenFile _ _ |- _ => injection H as <- <-
              end; try discriminate; try congruence; eauto.
Qed.

Lemma write_part_appends_or_creates_witness :
  write_part connected_sftp upload_path one_file_server ["a"; "b"] 0 "a"
  = Ret (None, [EvStat "upload/file-0.txt";
                EvOpenFile "upload/file-0.txt" 1026;
                EvFileWrite "upload/file-0.txt" "a"])
  /\ (forall path, EvCreate path ∈ [EvStat "upload/file-0.txt";
                                   EvOpenFile "upload/file-0.txt" 1026;
                                   EvFileWrite "upload/file-0.txt" "a"] ->
        path = "upload/file-0.txt").
Proof.
  split; [reflexivity|].
  intros path Hin.
  exact (proj1 (proj1 (write_part_appends_or_creates connected_sftp upload_path
                         one_file_server ["a"; "b"] 0 "a" _ _ eq_refl) path Hin)).
Defined.

End SFTPWriterSpec.

(** ** The Azure Blob Storage writer *)
Module AzureBlobStorageWriterSpec.
Import AzureBlobStorageWriter.

Ltac case_scrutinee_in H :=
  match type of H with
  | context [match ?x with _ => _ end] =>
      lazymatch x with
      | context [match _ with _ => _ end] => fail
      | _ => destruct x eqn:?
      end
  end.

Ltac case_goal :=
  match goal with
  | |- context [match ?x with _ => _ end] =>
      lazymatch x with
      | context [match _ with _ => _ end] => fail
      | _ => destruct x eqn:?
      end
  end.


(** The iteration stops at the first part that fails: the parts before it
    went through, and nothing was done for the parts after it. *)
Lemma Iter_early_exit {E Ev} (f : nat -> Part -> option E * list Ev)
    (idx : Ev -> nat) :
  (forall j p e, e ∈ (f j p).2 -> idx e = j) ->
  forall parts i res evs,
    Iter f i parts = (res, evs) ->
    match res with
    | None => forall j q, parts !! j = Some q -> (f (i + j) q).1 = None
    | Some err =>
        exists k p,
          parts !! k = Some p /\ (f (i + k) p).1 = Some err
          /\ (forall j q, j < k -> parts !! j = Some q -> (f (i + j) q).1 = None)
    end
    /\ (forall e, e ∈ evs ->
          i <= idx e
          /\ match res with
             | None => True
             | Some err => forall k p, parts !! k = Some p ->
                                       (f (i + k) p).1 = Some err ->
                                       (forall j q, j < k -> parts !! j = Some q ->
                                                    (f (i + j) q).1 = None) ->
                                       idx e <= i + k
             end).
Proof.
  intros Hidx. induction parts as [|p rest IH]; intros i res evs H.
  - cbn in H. injection H as <- <-. split.
    + intros j q Hj. discriminate.
    + intros e He. apply elem_of_nil in He. contradiction.
  - cbn [Iter] in H.
    destruct (f i p) as [[err|] evs0] eqn:Hf.
    + injection H as <- <-. split.
      * exists 0, p. rewrite Nat.add_0_r, Hf. repeat split. intros j q Hj. lia.
      * intros e He.
        assert (idx e = i) as -> by (apply (Hidx i p); rewrite Hf; exact He).
        split; [lia|]. intros; lia.
    + destruct (Iter f (S i) rest) as [res' evs'] eqn:Hrest.
      injection H as <- <-.
      destruct (IH (S i) res' evs' Hrest) as [Hres Hevs]. split.
      * destruct res' as [err|].
        -- destruct Hres as (k & q & Hk & Hfail & Hbefore).
           exists (S k), q. replace (i + S k) with (S i + k) by lia.
           split; [exact Hk|]. split; [exact Hfail|].
           intros [|j] q' Hj Hq.
           ++ cbn in Hq. injection Hq as <-. rewrite Nat.add_0_r, Hf. reflexivity.
           ++ replace (i + S j) with (S i + j) by lia.
              apply Hbefore; [lia|exact Hq].
        -- intros [|j] q Hq.
           ++ cbn in Hq. injection Hq as <-. rewrite Nat.add_0_r, Hf. reflexivity.
           ++ replace (i + S j) with (S i + j) by lia. apply Hres. exact Hq.
      * intros e He. apply elem_of_app in He as [He|He].
        -- assert (idx e = i) as -> by (apply (Hidx i p); rewrite Hf; exact He).
           split; [lia|]. destruct res'; [|exact I]. intros; lia.
        -- destruct (Hevs e He) as [Hlo Hhi]. split; [lia|].
           destruct res' as [err|]; [|exact I].
           intros [|k] q Hq Hfail Hbefore.
           ++ cbn in Hq. injection Hq as <-.
              rewrite Nat.add_0_r, Hf in Hfail. discriminate.
           ++ replace (i + S k) with (S i + k) in * by lia.
              apply (Hhi k q Hq Hfail).
              intros j q' Hj Hq'. specialize (Hbefore (S j) q' ltac:(lia) Hq').
              replace (i + S j) with (S i + j) in Hbefore by lia. exact Hbefore.
Qed.

(** Every event of the work for part [i] is labelled [i]. *)
Lemma write_part_index ext a svc msg i p e :
  e ∈ (write_part ext a svc msg i p).2 -> event_index e = i.
Proof.
  unfold write_part, uploadToBlob.
  repeat (case_goal; cbn [fst snd]).
  all: repeat match goal with
              | H : (_, _) = (_, _) |- _ => injection H as <- <-
              end.
  all: intros H; apply list_elem_of_In in H; cbn in H.
  all: repeat match goal with
              | H : _ \/ _ |- _ => destruct H as [<-|H]
              | H : False |- _ => contradiction
              end; reflexivity.
Qed.




(** X15. Without an account name or without an access key nothing is sent:
    a batch that is not empty fails at its first part with the credentials
    error, and an empty batch succeeds. *)
Theorem missing_credentials_fail_first_part ext a svc msg :
  StorageAccount (conf a) = "" \/ StorageAccessKey (conf a) = "" ->
  WriteWithContext ext a svc msg
  = (match msg with
     | [] => None
     | _ :: _ => Some (plain_error "invalid azure storage account credentials")
     end, []).
Proof.
  intros Hcred. unfold WriteWithContext.
  destruct msg as [|p rest]; [reflexivity|].
  cbn [Iter]. unfold write_part, getContainer.
  destruct Hcred as [-> | ->]; cbn [String.length Nat.eqb orb].
  - reflexivity.
  - rewrite orb_true_r. reflexivity.
Qed.

Lemma missing_credentials_fail_first_part_witness :
  WriteWithContext test_ext no_account_writer healthy_service ["a"; "b"]
  = (Some (plain_error "invalid azure storage account credentials"), []).
Proof.
  apply (missing_credentials_fail_first_part test_ext no_account_writer
           healthy_service ["a"; "b"]).
  left. reflexivity.
Defined.

(** X16. A write stops at the first part that fails: the error returned is
    that part's, every part before it went through, and no call was made
    for any part after it. A write that returns no error went through for
    every part. *)
Theorem write_stops_at_first_failure ext a svc msg res evs :
  WriteWithContext ext a svc msg = (res, evs) ->
  match res with
  | None =>
      forall j q, msg !! j = Some q -> (write_part ext a svc msg j q).1 = None
  | Some err =>
      exists k p,
        msg !! k = Some p
        /\ (write_part ext a svc msg k p).1 = Some err
        /\ (forall j q, j < k -> msg !! j = Some q ->
                        (write_part ext a svc msg j q).1 = None)
        /\ (forall e, e ∈ evs -> event_index e <= k)
  end.
Proof.
  unfold WriteWithContext. intros H.
  destruct (Iter_early_exit (write_part ext a svc msg) event_index
              (fun j p e => write_part_index ext a svc msg j p e)
              msg 0 res evs H) as [Hres Hevs].
  destruct res as [err|]; [|exact Hres].
  destruct Hres as (k & p & Hk & Hfail & Hbefore).
  exists k, p. repeat split; try assumption.
  intros e He. destruct (Hevs e He) as [_ Hhi].
  apply (Hhi k p Hk Hfail Hbefore).
Qed.

Lemma write_stops_at_first_failure_witness :
  exists k p,
    ["a"; "b"; "c"] !! k = Some p
    /\ (write_part test_ext (test_writer "BLOCK") second_part_fails
          ["a"; "b"; "c"] k p).1 = Some missing_container
    /\ (forall e, e ∈ (WriteWithContext test_ext (test_writer "BLOCK")
                          second_part_fails ["a"; "b"; "c"]).2 ->
                  event_index e <= k).
Proof.
  destruct (write_stops_at_first_failure test_ext (test_writer "BLOCK")
              second_part_fails ["a"; "b"; "c"] (Some missing_container) _ eq_refl)
    as (k & p & Hk & Hfail & _ & Hevs).
  exists k, p. repeat split; assumption.
Defined.

(** X17. When the upload of a part fails, the write fails with the upload's
    error whatever else happens; the container is created, once, exactly
    when the error says the container was not found; and for an error of
    the storage service that is decided by its service code alone, for any
    other error by its message. *)
Theorem upload_failure_creates_missing_container ext a svc msg i p c err :
  getContainer ext a (container a i msg) = inr c ->
  (uploadToBlob svc i p (path a i msg) (blobType a i msg) c).1 = Some err ->
  (write_part ext a svc msg i p).1 = Some err
  /\ (EvCreateContainer i c ∈ (write_part ext a svc msg i p).2
      <-> containerNotFound err = true)
  /\ length (List.filter is_create (write_part ext a svc msg i p).2) <= 1
  /\ (forall code, service_code err = Some code ->
        (containerNotFound err = true <-> code = "ContainerNotFound"))
  /\ (service_code err = None ->
        containerNotFound err = Contains (text err) "ContainerNotFound").
Proof.
  intros Hc Hup. unfold write_part. rewrite Hc.
  destruct (uploadToBlob svc i p (path a i msg) (blobType a i msg) c)
    as [res evs] eqn:Hupload.
  cbn [fst] in Hup. subst res.
  assert (Hevs : forall e, e ∈ evs -> is_create e = false).
  { unfold uploadToBlob in Hupload.
    repeat (case_scrutinee_in Hupload); injection Hupload as _ <-;
      intros e He; apply list_elem_of_In in He; cbn in He;
      repeat match goal with
             | H : _ \/ _ |- _ => destruct H as [<-|H]
             | H : False |- _ => contradiction
             end; reflexivity. }
  assert (Hnone : List.filter is_create evs = []).
  { clear Hupload. induction evs as [|e evs IH]; [reflexivity|].
    cbn. rewrite (Hevs e) by (left). apply IH.
    intros e' He'. apply Hevs. right. exact He'. }
  split; [|split; [|split; [|split]]].
  - repeat case_goal; reflexivity.
  - destruct (containerNotFound err) eqn:Hnf.
    + split; [reflexivity|]. intros _.
      destruct (CreateContainer svc i c); cbn [snd];
        rewrite !elem_of_app; right; left.
    + split; [|discriminate]. cbn [snd]. rewrite elem_of_app.
      intros [He|He].
      * specialize (Hevs _ He). discriminate.
      * apply list_elem_of_singleton in He. discriminate.
  - repeat case_goal; cbn [snd]; rewrite ?List.filter_app, Hnone; cbn; lia.
  - intros code Hcode. unfold containerNotFound. rewrite Hcode.
    unfold ServiceCodeContainerNotFound. apply String.eqb_eq.
  - intros Hcode. unfold containerNotFound. rewrite Hcode. reflexivity.
Qed.

Lemma upload_failure_creates_missing_container_witness :
  (write_part test_ext (test_writer "BLOCK") second_part_fails ["a"; "b"] 1 "b").1
  = Some missing_container
  /\ EvCreateContainer 1 {| url := "https://acct.blob.core.windows.net/logs" |}
     ∈ (write_part test_ext (test_writer "BLOCK") second_part_fails ["a"; "b"] 1 "b").2.
Proof.
  destruct (upload_failure_creates_missing_container test_ext (test_writer "BLOCK")
              second_part_fails ["a"; "b"] 1 "b"
              {| url := "https://acct.blob.core.windows.net/logs" |}
              missing_container eq_refl eq_refl)
    as (Herr & Hcreate & _).
  split; [exact Herr|]. apply Hcreate. reflexivity.
Defined.

End AzureBlobStorageWriterSpec.

(** ** The DynamoDB PartiQL write path *)
Module DynamoDBSpec.
Import DynamoDB.

Lemma statements_seq cfg msg :
  statements cfg msg = (fun i => (i, evaluate cfg i msg)) <$> seq 0 (length msg).
Proof. unfold statements. apply imap_seq_0. Qed.

Lemma statements_stmts cfg msg :
  (statements cfg msg).*2 = (fun i => evaluate cfg i msg) <$> seq 0 (length msg).
Proof.
  rewrite statements_seq, <- list_fmap_compose. reflexivity.
Qed.

(** The individual calls are made once per pending record, in order. *)
Lemma run_individually_events c : forall pending k be,
  (run_individually c k pending be).2 = EvExecute <$> pending.*2.
Proof.
  induction pending as [|[i st] rest IH]; intros k be; [reflexivity|].
  cbn [run_individually].
  specialize (IH (S k) (match pfn c k st with Some err => Failed i err be | None => be end)).
  destruct (run_individually c (S k) rest _) as [be' evs]. cbn in *.
  rewrite IH. reflexivity.
Qed.

(** They change neither the batch nor the headline of the error, and they
    file the failure of the call for record [i] under [i]. *)
Lemma run_individually_error c f : forall n a be,
  let res := (run_individually c a ((fun i => (i, f i)) <$> seq a n) be).1 in
  source res = source be
  /\ headline res = headline be
  /\ forall i, erroredBatchItems res !! i =
       if decide (a <= i < a + n)
       then match pfn c i (f i) with
            | Some err => Some err
            | None => erroredBatchItems be !! i
            end
       else erroredBatchItems be !! i.
Proof.
  induction n as [|n IH]; intros a be.
  - cbn. repeat split. intros i. case_decide; [lia|reflexivity].
  - cbn [seq fmap list_fmap run_individually].
    specialize (IH (S a) (match pfn c a (f a) with
                          | Some err => Failed a err be
                          | None => be
                          end)).
    destruct (run_individually c (S a) _ _) as [be' evs] eqn:Hrun.
    cbn [fst] in *. destruct IH as (Hsrc & Hhead & Hitems).
    split; [|split].
    + rewrite Hsrc. destruct (pfn c a (f a)); reflexivity.
    + rewrite Hhead. destruct (pfn c a (f a)); reflexivity.
    + intros i. rewrite Hitems.
      destruct (decide (i = a)) as [->|Hne].
      * repeat case_decide; try lia.
        destruct (pfn c a (f a)); [apply lookup_insert_eq|reflexivity].
      * repeat case_decide; try lia; try reflexivity.
        all: destruct (pfn c a (f a)); [|reflexivity].
        all: cbn; rewrite lookup_insert_ne by congruence; reflexivity.
Qed.

(** While no bulk call fails outright, no record is run individually. *)
Lemma write_attempt_no_degrade c msg :
  (forall k stmts err, pbatchFn c k stmts <> BulkFailed err) ->
  forall n k pending, single_calls (write_attempt c msg n k pending).2 = [].
Proof.
  intros Hbulk. induction n as [|n IH]; intros k pending; cbn [write_attempt].
  - destruct (pbatchFn c k pending.*2) eqn:Hb; [edestruct Hbulk; eassumption|].
    destruct (retry_batch pending failures); reflexivity.
  - destruct (pbatchFn c k pending.*2) eqn:Hb; [edestruct Hbulk; eassumption|].
    destruct (retry_batch pending failures) as [|r retry] eqn:Hretry; [reflexivity|].
    specialize (IH (S k) (r :: retry)).
    destruct (write_attempt c msg n (S k) (r :: retry)) as [res evs].
    cbn in *. exact IH.
Qed.

(** C2. When the bulk call fails outright, one bulk call is followed by one
    individual call per record of the batch, in batch order; the outcomes
    are gathered under the records' own indices in a Batch Error headed by
    the bulk call's error (nil when every record went through). When no
    bulk call fails outright, however partial its success, no record is run
    individually. *)
Theorem bulk_failure_degrades cfg c msg :
  (forall err,
     pbatchFn c 0 (statements cfg msg).*2 = BulkFailed err ->
     (Write cfg c msg).2
       = EvBatchExecute (statements cfg msg).*2
         :: (EvExecute <$> (statements cfg msg).*2)
     /\ exists be,
          source be = msg /\ headline be = err
          /\ (forall i, erroredBatchItems be !! i
                        = msg !! i ≫= (fun _ => pfn c i (evaluate cfg i msg)))
          /\ (Write cfg c msg).1
             = if (IndexedErrors be =? 0)%nat then None else Some be)
  /\ ((forall k stmts err, pbatchFn c k stmts <> BulkFailed err) ->
      single_calls (Write cfg c msg).2 = []).
Proof.
  split.
  - intros err Hbulk. unfold Write.
    destruct (Nat.pred (max_attempts cfg)) as [|n];
      cbn [write_attempt]; rewrite Hbulk;
      pose proof (run_individually_events c (statements cfg msg) 0 (NewError msg err)) as Hev;
      pose proof (run_individually_error c (fun i => evaluate cfg i msg)
                    (length msg) 0 (NewError msg err)) as Herr;
      cbv beta in Herr; rewrite <- statements_seq in Herr;
      destruct (run_individually c 0 (statements cfg msg) (NewError msg err))
        as [be evs]; cbn [fst snd] in *;
      destruct Herr as (Hsrc & Hhead & Hitems);
      (split; [rewrite Hev; reflexivity|]);
      exists be; repeat split; try assumption;
      intros i; rewrite Hitems; cbn;
      (case_decide as Hi;
       [destruct (lookup_lt_is_Some_2 msg i ltac:(lia)) as [p ->]; cbn;
        destruct (pfn c i (evaluate cfg i msg)); [reflexivity|apply lookup_empty]
       |rewrite (lookup_ge_None_2 msg i) by lia; apply lookup_empty]).
  - intros Hbulk. apply write_attempt_no_degrade. exact Hbulk.
Qed.

Lemma bulk_failure_degrades_witness :
  (Write (test_cfg 3) sad_client test_msg).2
    = [EvBatchExecute ["INSERT foo"; "INSERT bar"; "INSERT baz"];
       EvExecute "INSERT foo"; EvExecute "INSERT bar"; EvExecute "INSERT baz"]
  /\ single_calls (Write (test_cfg 3) sad_batch_client test_msg).2 = [].
Proof.
  destruct (bulk_failure_degrades (test_cfg 3) sad_client test_msg) as [Hdeg _].
  destruct (Hdeg "woop" eq_refl) as [Hev _].
  split; [exact Hev|].
  apply (bulk_failure_degrades (test_cfg 3) sad_batch_client test_msg).
  intros k stmts err. discriminate.
Defined.

(** The expectations of TestDynamoDBPartiqlSadToGood and
    TestDynamoDBPartiqlSad. *)
Example TestDynamoDBPartiqlSadToGood :
  Write (test_cfg 3) sad_to_good_client test_msg
  = (None, [EvBatchExecute ["INSERT foo"; "INSERT bar"; "INSERT baz"];
            EvExecute "INSERT foo"; EvExecute "INSERT bar"; EvExecute "INSERT baz"]).
Proof. vm_compute. reflexivity. Qed.

Example TestDynamoDBPartiqlSad :
  Write (test_cfg 3) sad_client test_msg
  = (Some (Failed 1 "dont like bar" (NewError test_msg "woop")),
     [EvBatchExecute ["INSERT foo"; "INSERT bar"; "INSERT baz"];
      EvExecute "INSERT foo"; EvExecute "INSERT bar"; EvExecute "INSERT baz"]).
Proof. vm_compute. reflexivity. Qed.

(** *** The retry subset *)



Lemma retry_from_elem {A} (batch : list A) failures x : forall i,
  x ∈ retry_from i batch failures
  <-> exists j, batch !! j = Some x /\ is_Some (failures !! (i + j)).
Proof.
  induction batch as [|r rest IH]; intros i; cbn [retry_from].
  - split; [intros H; apply elem_of_nil in H; contradiction|].
    intros (j & Hj & _). discriminate.
  - assert (Hrest : x ∈ retry_from (S i) rest failures
                    <-> exists j, (r :: rest) !! S j = Some x
                                  /\ is_Some (failures !! (i + S j))).
    { rewrite IH. split; intros (j & Hj & Hf); exists j; split; try assumption.
      - replace (i + S j) with (S i + j) by lia. assumption.
      - replace (S i + j) with (i + S j) by lia. assumption. }
    destruct (failures !! i) as [e|] eqn:Hi.
    + rewrite elem_of_cons, Hrest. split.
      * intros [->|(j & Hj & Hf)].
        -- exists 0. rewrite Nat.add_0_r, Hi. eauto.
        -- exists (S j). eauto.
      * intros ([|j] & Hj & Hf).
        -- left. cbn in Hj. congruence.
        -- right. eauto.
    + rewrite Hrest. split.
      * intros (j & Hj & Hf). exists (S j). eauto.
      * intros ([|j] & Hj & Hf).
        -- rewrite Nat.add_0_r, Hi in Hf. destruct Hf. discriminate.
        -- eauto.
Qed.


Lemma retry_from_Forall {A} (P : A -> Prop) (batch : list A) failures : forall i,
  Forall P batch -> Forall P (retry_from i batch failures).
Proof.
  induction batch as [|r rest IH]; intros i Hall; [constructor|].
  inversion Hall; subst. cbn.
  destruct (failures !! i); [constructor; [assumption|]|]; apply IH; assumption.
Qed.

(** *** The error surfaced on exhaustion *)






Lemma statements_lookup cfg msg j i st :
  statements cfg msg !! j = Some (i, st)
  <-> i = j /\ j < length msg /\ st = evaluate cfg j msg.
Proof.
  rewrite statements_seq, list_lookup_fmap_Some. split.
  - intros (x & [= -> ->] & Hx). apply lookup_seq in Hx as [-> Hlt].
    repeat split; assumption.
  - intros (-> & Hlt & ->). exists j. split; [reflexivity|].
    apply lookup_seq. split; [reflexivity|assumption].
Qed.




(** The expectations of TestDynamoDBPartiqlSadToGoodBatch and
    TestDynamoDBPartiqlSadBatch: the second bulk call carries record 1
    alone, and the error that survives the last attempt names index 1 though
    the record sat at position 0 of that call. *)
Example TestDynamoDBPartiqlSadToGoodBatch :
  Write (test_cfg 3) sad_to_good_batch_client test_msg
  = (None, [EvBatchExecute ["INSERT foo"; "INSERT bar"; "INSERT baz"];
            EvBatchExecute ["INSERT bar"]]).
Proof. vm_compute. reflexivity. Qed.



(** X18. A bulk call that reports no failure for any record of the batch
    ends the write: one bulk call carrying the statements of all records in
    batch order, no individual call, and no error, as
    TestDynamoDBPartiqlHappy expects. *)
Theorem total_success_is_one_bulk_call cfg c msg failures :
  pbatchFn c 0 (statements cfg msg).*2 = BulkReturned failures ->
  (forall i, i < length msg -> failures !! i = None) ->
  Write cfg c msg = (None, [EvBatchExecute (statements cfg msg).*2])
  /\ (statements cfg msg).*2 = (fun i => evaluate cfg i msg) <$> seq 0 (length msg).
Proof.
  intros Hbulk Hok. split; [|apply statements_stmts].
  assert (Hretry : retry_batch (statements cfg msg) failures = []).
  { destruct (retry_batch (statements cfg msg) failures) as [|[i st] rest] eqn:Hr;
      [reflexivity|].
    assert (Hin : (i, st) ∈ retry_batch (statements cfg msg) failures)
      by (rewrite Hr; left).
    apply retry_from_elem in Hin as (j & Hj & [e He]).
    apply statements_lookup in Hj as (_ & Hlt & _).
    cbn [Nat.add] in He. rewrite (Hok j Hlt) in He. discriminate. }
  unfold Write.
  destruct (Nat.pred (max_attempts cfg)); cbn [write_attempt];
    rewrite Hbulk, Hretry; reflexivity.
Qed.

Lemma total_success_is_one_bulk_call_witness :
  Write (test_cfg 3) sad_to_good_batch_client ["foo"; "baz"]
  = (None, [EvBatchExecute ["INSERT foo"; "INSERT baz"]]).
Proof.
  refine (proj1 (total_success_is_one_bulk_call (test_cfg 3) sad_to_good_batch_client
                   ["foo"; "baz"] ∅ _ _)).
  - vm_compute. reflexivity.
  - intros i _. apply lookup_empty.
Defined.

End DynamoDBSpec.
